(** * unnamed-project-bootstrapper: a shallow embedding of src/main.rs

    The program is a single Rust binary.  We embed the parts the
    interaction depends on:
    - the [LANGUAGES] table, a [std::collections::HashMap] built with the
      default [RandomState]; its iteration order is computed from the
      SipHash-1-3 hash of each key under the process' random keys and
      from the way the hash table places five entries into eight buckets;
    - the raw-mode input loops [get_project_name] and
      [get_selected_language], over a finite list of input events;
    - [main], including the terminal set-up and tear-down and the
      dispatch to the project initialiser, over a small model of the
      terminal, the file system and [exec].

    Machine integers are [Z] with their wrap-around written out. *)

From Stdlib Require Import ZArith List String Ascii Bool Lia Permutation.
Import ListNotations.

Open Scope Z_scope.
Open Scope list_scope.

(* ------------------------------------------------------------------ *)
(** ** 64-bit words and SipHash-1-3 (the hasher behind [RandomState]) *)

Module Sip.

Definition modulus : Z := 2 ^ 64.
Definition mask : Z := modulus - 1.

(** [u64::wrapping_add] *)
Definition wadd (a b : Z) : Z := (a + b) mod modulus.

(** [u64::rotate_left] *)
Definition rotl (x r : Z) : Z :=
  Z.land (Z.lor (Z.shiftl x r) (Z.shiftr x (64 - r))) mask.

Record state := mk { v0 : Z; v1 : Z; v2 : Z; v3 : Z }.

(** The [compress!] macro of [core::hash::sip]. *)
Definition compress (s : state) : state :=
  let '(mk v0 v1 v2 v3) := s in
  let v0 := wadd v0 v1 in let v1 := rotl v1 13 in let v1 := Z.lxor v1 v0 in
  let v0 := rotl v0 32 in
  let v2 := wadd v2 v3 in let v3 := rotl v3 16 in let v3 := Z.lxor v3 v2 in
  let v0 := wadd v0 v3 in let v3 := rotl v3 21 in let v3 := Z.lxor v3 v0 in
  let v2 := wadd v2 v1 in let v1 := rotl v1 17 in let v1 := Z.lxor v1 v2 in
  let v2 := rotl v2 32 in
  mk v0 v1 v2 v3.

Fixpoint rounds (n : nat) (s : state) : state :=
  match n with O => s | S n => rounds n (compress s) end.

Definition init (k0 k1 : Z) : state :=
  mk (Z.lxor k0 0x736f6d6570736575) (Z.lxor k1 0x646f72616e646f6d)
     (Z.lxor k0 0x6c7967656e657261) (Z.lxor k1 0x7465646279746573).

(** Absorb one little-endian 64-bit message word [m]. *)
Definition absorb_word (c : nat) (s : state) (m : Z) : state :=
  let s := rounds c (mk s.(v0) s.(v1) s.(v2) (Z.lxor s.(v3) m)) in
  mk (Z.lxor s.(v0) m) s.(v1) s.(v2) s.(v3).

Fixpoint le_word (bs : list Z) : Z :=
  match bs with [] => 0 | b :: bs => b + 256 * le_word bs end.

(** Split the message into full 8-byte words; return the pending tail. *)
Fixpoint absorb (c : nat) (s : state) (cur bs : list Z) : state * list Z :=
  match bs with
  | [] => (s, cur)
  | b :: bs =>
      let cur' := cur ++ [b] in
      if (List.length cur' =? 8)%nat then absorb c (absorb_word c s (le_word cur')) [] bs
      else absorb c s cur' bs
  end.

(** SipHash-c-d of the byte string [msg] under the key [(k0, k1)]. *)
Definition hash (c d : nat) (k0 k1 : Z) (msg : list Z) : Z :=
  let '(s, tail) := absorb c (init k0 k1) [] msg in
  let b := Z.lor (Z.shiftl (Z.of_nat (List.length msg) mod 256) 56) (le_word tail) in
  let s := rounds c (mk s.(v0) s.(v1) s.(v2) (Z.lxor s.(v3) b)) in
  let s := mk (Z.lxor s.(v0) b) s.(v1) (Z.lxor s.(v2) 255) s.(v3) in
  let s := rounds d s in
  Z.lxor (Z.lxor s.(v0) s.(v1)) (Z.lxor s.(v2) s.(v3)).

(** [DefaultHasher] is SipHash-1-3. *)
Definition hash13 := hash 1 3.

(** [usize::to_ne_bytes] on a 64-bit little-endian target. *)
Fixpoint le_bytes (n : nat) (x : Z) : list Z :=
  match n with O => [] | S n => (x mod 256) :: le_bytes n (x / 256) end.

End Sip.

(* ------------------------------------------------------------------ *)
(** ** Strings, languages and the [LANGUAGES] table *)

(** A Rust [char] is a Unicode scalar value; a [String] is the sequence
    of its chars ([String::push] appends one, [String::pop] removes the
    last one). *)
Definition rchar := N.
Definition rstring := list rchar.

(** A string literal of the source, as a Rust string. *)
Definition lit (s : string) : rstring :=
  map (fun a => N_of_ascii a) (list_ascii_of_string s).

(** [enum ProjectLanguage]; its discriminants are 0..4 in this order. *)
Inductive ProjectLanguage := Rust | Web | Cpp | Ocaml | Haskell.

Definition discriminant (l : ProjectLanguage) : Z :=
  match l with Rust => 0 | Web => 1 | Cpp => 2 | Ocaml => 3 | Haskell => 4 end.

Definition ProjectLanguage_eqb (a b : ProjectLanguage) : bool :=
  discriminant a =? discriminant b.

(** [impl Display for ProjectLanguage] *)
Definition display (l : ProjectLanguage) : rstring :=
  match l with
  | Rust => lit "rust" | Web => lit "web" | Cpp => lit "cpp"
  | Ocaml => lit "ocaml" | Haskell => lit "haskell"
  end.

(** [struct Command] *)
Record Command := {
  command : rstring;
  args : list rstring;
  automatic_new_folder : bool
}.

(** [enum CommandExists] *)
Inductive CommandExists :=
| Exists (c : Command)
| NotExists (file : list rstring).

(** The array passed to [HashMap::from], in source order. *)
Definition LANGUAGES_entries : list (ProjectLanguage * CommandExists) :=
  [ (Rust, Exists {| command := lit "cargo"; args := [lit "new"];
                      automatic_new_folder := true |});
    (Web, NotExists [lit "index.html"]);
    (Cpp, NotExists [lit "src"; lit "main.cpp"]);
    (Ocaml, Exists {| command := lit "dune"; args := [lit "init"; lit "project"];
                       automatic_new_folder := true |});
    (Haskell, Exists {| command := lit "cabal"; args := [lit "init"];
                         automatic_new_folder := false |}) ].

(** *** The hash table behind [HashMap]

    [#[derive(Hash)]] on a field-less enum hashes its discriminant as an
    [isize], i.e. writes its 8 little-endian bytes into the hasher;
    [RandomState] builds a SipHash-1-3 hasher from its two random 64-bit
    keys [k0] and [k1]. *)
Definition make_hash (k0 k1 : Z) (l : ProjectLanguage) : Z :=
  Sip.hash13 k0 k1 (Sip.le_bytes 8 (discriminant l)).

(** [HashMap::from] on an array of 5 entries reserves room for 5 items,
    which gives a table of 8 buckets ([bucket_mask = 7]).  An entry whose
    hash is [h] goes into the first empty bucket found from [h & 7]
    onwards, wrapping around at the end of the table (the group probe
    reads the buckets [h & 7 .. 7], then the always-empty trailing
    control bytes send it back to the first empty bucket from 0). *)
Definition bucket_mask : Z := 7.

Fixpoint first_free (used : list Z) (pos : Z) (fuel : nat) : Z :=
  match fuel with
  | O => pos
  | S fuel =>
      if existsb (Z.eqb pos) used
      then first_free used (Z.land (pos + 1) bucket_mask) fuel
      else pos
  end.

(** Insertion of the entries, in array order: each entry with its bucket. *)
Fixpoint place {A} (h : A -> Z) (tbl : list (Z * A)) (es : list A) : list (Z * A) :=
  match es with
  | [] => tbl
  | e :: es =>
      let b := first_free (map fst tbl) (Z.land (h e) bucket_mask) 8 in
      place h (tbl ++ [(b, e)]) es
  end.

(** Iteration visits the buckets in increasing index order. *)
Definition table_iter {A} (tbl : list (Z * A)) : list A :=
  flat_map (fun i => map snd (filter (fun e => fst e =? i) tbl))
           (map Z.of_nat (seq 0 8)).

(** [LANGUAGES.iter()] under the [RandomState] keys [k0], [k1]. *)
Definition LANGUAGES_iter (k0 k1 : Z) : list (ProjectLanguage * CommandExists) :=
  table_iter (place (fun e => make_hash k0 k1 (fst e)) [] LANGUAGES_entries).

(** [LANGUAGES.get(&l)] *)
Definition LANGUAGES_get (k0 k1 : Z) (l : ProjectLanguage) : option CommandExists :=
  option_map snd (find (fun e => ProjectLanguage_eqb (fst e) l) (LANGUAGES_iter k0 k1)).

(* ------------------------------------------------------------------ *)
(** ** The process model *)

(** [enum MyError]; the payload of [std::io::Error] plays no role. *)
Inductive MyError := Io | GracefulShutdown.

Inductive result (A E : Type) := Ok (a : A) | Err (e : E).
Arguments Ok {A E} a.
Arguments Err {A E} e.

(** *** Input events ([crossterm::event]) *)

Inductive KeyCode := Up | Down | Enter | Backspace | Char (c : rchar) | OtherKey.

(** [KeyModifiers] is a bit set. *)
Definition NONE : N := 0.
Definition SHIFT : N := 1.
Definition CONTROL : N := 2.

Record KeyEvent := { code : KeyCode; modifiers : N }.

Inductive Event := Key (k : KeyEvent) | Resize (cols rows : N) | OtherEvent.

(** One call of [crossterm::event::read()]: an event, or an I/O error. *)
Inductive input := Read (e : Event) | ReadError.

(** *** Terminal, file system, process *)

Definition path := list rstring.

Inductive node := Dir | File (contents : list Z).

(** The observable actions of the process, in the order they happen. *)
Inductive action :=
| AEnterAlternateScreen | ALeaveAlternateScreen | AEnableRawMode | ADisableRawMode
| ACreateDir (p : path) | ASetCurrentDir (p : path) | ACreateDirAll (p : path)
| ACreateFile (p : path) | AWriteAll (p : path) (bytes : list Z)
| AExec (program : rstring) (argv : list rstring)
| APrintln (line : rstring).

(** Each action is logged with the terminal mode in force when it starts. *)
Record entry := { act : action; raw_then : bool; alt_then : bool }.

Record St := {
  raw : bool;                 (** raw mode enabled *)
  alt : bool;                 (** on the alternate screen *)
  io_budget : option nat;     (** terminal operations that still succeed; [None]: all do *)
  cwd : path;                 (** absolute current directory *)
  fs : list (path * node);    (** existing entries, by absolute path; the root always exists *)
  installed : list rstring;   (** programs found on [PATH] *)
  trace : list entry
}.

Definition with_terminal (r a : bool) (s : St) : St :=
  {| raw := r; alt := a; io_budget := s.(io_budget); cwd := s.(cwd); fs := s.(fs);
     installed := s.(installed); trace := s.(trace) |}.
Definition with_budget (b : option nat) (s : St) : St :=
  {| raw := s.(raw); alt := s.(alt); io_budget := b; cwd := s.(cwd); fs := s.(fs);
     installed := s.(installed); trace := s.(trace) |}.
Definition with_cwd (p : path) (s : St) : St :=
  {| raw := s.(raw); alt := s.(alt); io_budget := s.(io_budget); cwd := p; fs := s.(fs);
     installed := s.(installed); trace := s.(trace) |}.
Definition with_fs (f : list (path * node)) (s : St) : St :=
  {| raw := s.(raw); alt := s.(alt); io_budget := s.(io_budget); cwd := s.(cwd); fs := f;
     installed := s.(installed); trace := s.(trace) |}.
Definition log (a : action) (s : St) : St :=
  {| raw := s.(raw); alt := s.(alt); io_budget := s.(io_budget); cwd := s.(cwd); fs := s.(fs);
     installed := s.(installed);
     trace := s.(trace) ++ [{| act := a; raw_then := s.(raw); alt_then := s.(alt) |}] |}.

(** How the process ends when it does not return from [main]:
    [std::process::exit], a panic (an [unwrap] or [panic!]; no code of the
    program runs after it), a successful [exec] replacing the process
    image, or a [read] that blocks for ever because no event comes. *)
Inductive halt := HExit (code : Z) | HPanic | HExec (program : rstring) (argv : list rstring) | HBlocked.

Inductive outcome (A : Type) := Done (a : A) (s : St) | Halted (h : halt) (s : St).
Arguments Done {A} a s.
Arguments Halted {A} h s.

Definition M (A : Type) := St -> outcome A.

Definition ret {A} (a : A) : M A := fun s => Done a s.
Definition bind {A B} (m : M A) (k : A -> M B) : M B :=
  fun s => match m s with Done a s' => k a s' | Halted h s' => Halted h s' end.
Definition halt_with {A} (h : halt) : M A := fun s => Halted h s.
Definition get : M St := fun s => Done s s.

Notation "x <- m ;; k" := (bind m (fun x => k))
  (at level 61, m at next level, right associativity).
Notation "' p <- m ;; k" := (bind m (fun x => match x with p => k end))
  (at level 61, p pattern, m at next level, right associativity).

(** The [?] operator on [Result<_, MyError>]. *)
Definition bindR {A B} (m : M (result A MyError)) (k : A -> M (result B MyError))
  : M (result B MyError) :=
  bind m (fun r => match r with Ok a => k a | Err e => ret (Err e) end).
Notation "x <-? m ;; k" := (bindR m (fun x => k))
  (at level 61, m at next level, right associativity).

(** [Result::unwrap] / [Option::unwrap]: panic on [Err] / [None]. *)
Definition unwrap {A E} (r : result A E) : M A :=
  fun s => match r with Ok a => Done a s | Err _ => Halted HPanic s end.
Definition unwrap_opt {A} (o : option A) : M A :=
  fun s => match o with Some a => Done a s | None => Halted HPanic s end.

(** A terminal operation ([execute!], [queue!], [flush], the raw-mode
    switches): it fails once the I/O budget is spent; otherwise it is
    logged (when it is an action of interest) and takes effect. *)
Definition term_op (a : option action) (f : St -> St) : M (result unit MyError) :=
  fun s =>
    match s.(io_budget) with
    | Some O => Done (Err Io) s
    | b =>
        let s := with_budget (match b with Some (S n) => Some n | _ => b end) s in
        let s := match a with Some a => log a s | None => s end in
        Done (Ok tt) (f s)
    end.

Definition enter_alternate_screen :=
  term_op (Some AEnterAlternateScreen) (fun s => with_terminal s.(raw) true s).
Definition leave_alternate_screen :=
  term_op (Some ALeaveAlternateScreen) (fun s => with_terminal s.(raw) false s).
Definition enable_raw_mode :=
  term_op (Some AEnableRawMode) (fun s => with_terminal true s.(alt) s).
Definition disable_raw_mode :=
  term_op (Some ADisableRawMode) (fun s => with_terminal false s.(alt) s).
(** Clearing, moving the cursor, printing, flushing, hiding or showing the
    cursor: an operation that can fail and changes no mode. *)
Definition screen_op := term_op None (fun s => s).

(** [println!]: panics when stdout cannot be written. *)
Definition println (line : rstring) : M unit :=
  r <- term_op (Some (APrintln line)) (fun s => s) ;; unwrap r.

(** *** File system ([std::fs], [std::env]) *)

(** A [PathBuf]: absolute, or relative to the current directory.  A
    project name is one path component (names holding '/' are not
    split; the empty name adds no component, as [Path::join("")]). *)
Record PathBuf := { absolute : bool; comps : list rstring }.

Definition name_path (n : rstring) : list rstring := match n with [] => [] | _ => [n] end.

Definition resolve (s : St) (p : PathBuf) : path :=
  if p.(absolute) then p.(comps) else s.(cwd) ++ p.(comps).

Definition path_eqb (p q : path) : bool :=
  if list_eq_dec (list_eq_dec N.eq_dec) p q then true else false.

Definition lookup (f : list (path * node)) (p : path) : option node :=
  match p with
  | [] => Some Dir
  | _ => option_map snd (find (fun e => path_eqb (fst e) p) f)
  end.

Definition is_dir (f : list (path * node)) (p : path) : bool :=
  match lookup f p with Some Dir => true | _ => false end.

Definition update (f : list (path * node)) (p : path) (n : node) : list (path * node) :=
  (p, n) :: filter (fun e => negb (path_eqb (fst e) p)) f.

(** [fs::create_dir]: fails when the path exists or its parent is not a directory. *)
Definition create_dir (p : PathBuf) : M (result unit MyError) :=
  fun s =>
    let q := resolve s p in
    let s := log (ACreateDir q) s in
    match lookup s.(fs) q with
    | Some _ => Done (Err Io) s
    | None =>
        if is_dir s.(fs) (removelast q)
        then Done (Ok tt) (with_fs (update s.(fs) q Dir) s)
        else Done (Err Io) s
    end.

(** [fs::create_dir_all]: creates every missing prefix; fails on a prefix
    that exists and is not a directory.  The empty path succeeds. *)
Fixpoint mkdirs (f : list (path * node)) (base : path) (rest : list rstring)
  : option (list (path * node)) :=
  match rest with
  | [] => Some f
  | c :: rest =>
      let q := base ++ [c] in
      match lookup f q with
      | Some Dir => mkdirs f q rest
      | Some _ => None
      | None => mkdirs (update f q Dir) q rest
      end
  end.

Definition create_dir_all (p : PathBuf) : M (result unit MyError) :=
  fun s =>
    let base := if p.(absolute) then [] else s.(cwd) in
    let s := log (ACreateDirAll (resolve s p)) s in
    match mkdirs s.(fs) base p.(comps) with
    | Some f => Done (Ok tt) (with_fs f s)
    | None => Done (Err Io) s
    end.

(** [env::set_current_dir] *)
Definition set_current_dir (p : PathBuf) : M (result unit MyError) :=
  fun s =>
    let q := resolve s p in
    let s := log (ASetCurrentDir q) s in
    if is_dir s.(fs) q then Done (Ok tt) (with_cwd q s) else Done (Err Io) s.

(** [fs::File::create]: creates or truncates a file; the handle is its path. *)
Definition file_create (p : PathBuf) : M (result path MyError) :=
  fun s =>
    let q := resolve s p in
    let s := log (ACreateFile q) s in
    match lookup s.(fs) q with
    | Some Dir => Done (Err Io) s      (* the root, or a directory *)
    | _ =>
        if is_dir s.(fs) (removelast q)
        then Done (Ok q) (with_fs (update s.(fs) q (File [])) s)
        else Done (Err Io) s
    end.

(** [Write::write_all] on a file handle. *)
Definition write_all (h : path) (bytes : list Z) : M (result unit MyError) :=
  fun s =>
    let s := log (AWriteAll h bytes) s in
    match lookup s.(fs) h with
    | Some (File c) => Done (Ok tt) (with_fs (update s.(fs) h (File (c ++ bytes))) s)
    | _ => Done (Err Io) s
    end.

(** [CommandExt::exec]: replaces the process image when the program is
    found; otherwise it returns an error, which the caller drops. *)
Definition exec (program : rstring) (argv : list rstring) : M unit :=
  fun s =>
    let s := log (AExec program argv) s in
    if existsb (fun p => if list_eq_dec N.eq_dec p program then true else false) s.(installed)
    then Halted (HExec program argv) s
    else Done tt s.

(** [env::current_dir] *)
Definition current_dir : M path := fun s => Done s.(cwd) s.

(* ------------------------------------------------------------------ *)
(** ** The program *)

Section Program.

(** [true] in a build with overflow checks (the default [dev] profile):
    [usize] arithmetic that overflows panics; [false] in a [release]
    build: it wraps around. *)
Variable overflow_checks : bool.

(** The random keys of the [RandomState] of [LANGUAGES]. *)
Variables k0 k1 : Z.

Definition usize_modulus : Z := 2 ^ 64.

(** [selected -= 1] and [selected += 1] on a [usize]; [None] is a panic. *)
Definition usize_sub (a b : Z) : option Z :=
  if a - b <? 0
  then if overflow_checks then None else Some ((a - b) mod usize_modulus)
  else Some (a - b).

Definition usize_add (a b : Z) : option Z :=
  if usize_modulus <=? a + b
  then if overflow_checks then None else Some ((a + b) mod usize_modulus)
  else Some (a + b).

(** [fn clear_screen] *)
Definition clear_screen : M (result unit MyError) :=
  _ <-? screen_op ;;    (* execute!(Clear(All)) *)
  _ <-? screen_op ;;    (* queue!(MoveTo(0, 0)) *)
  screen_op.            (* stdout.flush() *)

(** *** [fn get_project_name] *)

(** What the body of the [while let] loop does with one key event. *)
Inductive name_step := NReturn (r : result rstring MyError) | NContinue (project_name : rstring).

Definition name_key (key : KeyEvent) (project_name : rstring) : name_step :=
  match key.(code) with
  | Char c =>
      if (c =? N_of_ascii "c"%char)%N && (key.(modifiers) =? CONTROL)%N
      then NReturn (Err GracefulShutdown)
      else NContinue (project_name ++ [c])                 (* project_name.push(c) *)
  | Enter => NReturn (Ok project_name)
  | Backspace => NContinue (removelast project_name)        (* project_name.pop() *)
  | _ => NContinue project_name
  end.

(** The loop [while let Event::Key(key) = read().unwrap() { ... }]
    followed by [Ok(project_name)]; returns the unread events. *)
Fixpoint name_loop (ins : list input) (project_name : rstring)
  : M (result rstring MyError * list input) :=
  match ins with
  | [] => halt_with HBlocked
  | ReadError :: _ => halt_with HPanic
  | Read (Key key) :: ins =>
      match name_key key project_name with
      | NReturn r => ret (r, ins)
      | NContinue project_name =>
          r <- (_ <-? clear_screen ;;
                _ <-? screen_op ;;     (* queue!(Print(project_name.white())) *)
                screen_op) ;;          (* stdout.flush() *)
          match r with
          | Err e => ret (Err e, ins)
          | Ok _ => name_loop ins project_name
          end
      end
  | Read _ :: ins => ret (Ok project_name, ins)
  end.

Definition get_project_name (ins : list input) : M (result rstring MyError * list input) :=
  r <- clear_screen ;;
  match r with
  | Err e => ret (Err e, ins)
  | Ok _ => name_loop ins []
  end.

(** *** [fn print_selection] and [fn get_selected_language] *)

Fixpoint queue_each {A} (l : list A) : M (result unit MyError) :=
  match l with
  | [] => ret (Ok tt)
  | _ :: l => _ <-? screen_op ;; queue_each l   (* queue!(MoveTo(..), PrintStyledContent(..)) *)
  end.

Definition print_selection (selected : Z) : M (result unit MyError) :=
  _ <-? screen_op ;;                           (* queue!(Print(title)) *)
  _ <-? queue_each (LANGUAGES_iter k0 k1) ;;
  screen_op.                                   (* stdout.flush() *)

(** What the loop does with the code of one key event. *)
Inductive sel_step := SMove (selected : Z) | SBreak | SPanic.

Definition select_key (c : KeyCode) (selected : Z) : sel_step :=
  match c with
  | Up => match usize_sub selected 1 with Some v => SMove v | None => SPanic end
  | Down => match usize_add selected 1 with Some v => SMove v | None => SPanic end
  | Enter => SBreak
  | _ => SMove selected
  end.

(** The [loop]: render, read one event, update [selected]. *)
Fixpoint select_loop (ins : list input) (selected : Z) : M (result Z MyError * list input) :=
  r <- clear_screen ;;
  match r with
  | Err e => ret (Err e, ins)
  | Ok _ =>
      r <- print_selection selected ;;
      _ <- unwrap r ;;
      match ins with
      | [] => halt_with HBlocked
      | ReadError :: _ => halt_with HPanic
      | Read (Key key) :: ins =>
          match select_key key.(code) selected with
          | SMove v => select_loop ins v
          | SBreak => ret (Ok selected, ins)
          | SPanic => halt_with HPanic
          end
      | Read _ :: ins => select_loop ins selected
      end
  end.

(** [LANGUAGES.iter().nth(n)] *)
Fixpoint iter_nth {A} (l : list A) (n : Z) : option A :=
  match l with
  | [] => None
  | x :: l => if n =? 0 then Some x else iter_nth l (n - 1)
  end.

Definition get_selected_language (ins : list input)
  : M (result ProjectLanguage MyError * list input) :=
  r <- screen_op ;; _ <- unwrap r ;;             (* execute!(cursor::Hide).unwrap() *)
  '(r, ins) <- select_loop ins 0 ;;
  match r with
  | Err e => ret (Err e, ins)
  | Ok selected =>
      r <- screen_op ;; _ <- unwrap r ;;         (* execute!(cursor::Show).unwrap() *)
      e <- unwrap_opt (iter_nth (LANGUAGES_iter k0 k1) selected) ;;
      ret (Ok (fst e), ins)
  end.

(** *** [fn exit_program_gracefully] *)
Definition exit_program_gracefully {A} : M A :=
  r <- leave_alternate_screen ;; _ <- unwrap r ;;
  r <- disable_raw_mode ;; _ <- unwrap r ;;
  _ <- println (lit "Done!") ;;
  halt_with (HExit 0).

(** *** [fn main] *)

(** [Vec::pop] *)
Definition vec_pop {A} (v : list A) : option A * list A :=
  match rev v with [] => (None, v) | x :: r => (Some x, rev r) end.

Definition rel (p : list rstring) : PathBuf := {| absolute := false; comps := p |}.
Definition abs (p : path) : PathBuf := {| absolute := true; comps := p |}.

(** The bytes [b"test"] written into a stub file. *)
Definition stub_contents : list Z :=
  map (fun a => Z.of_N (N_of_ascii a)) (list_ascii_of_string "test").

(** Lines 96-127 of [main]: from [current_dir()] to the end of the [match]. *)
Definition dispatch (project_name : rstring) (language : ProjectLanguage) : M unit :=
  cur <- current_dir ;;
  let project_dir := cur ++ name_path project_name in
  ce <- unwrap_opt (LANGUAGES_get k0 k1 language) ;;
  match ce with
  | Exists cmd =>   (* [CommandExists::Exists(command)] *)
      if cmd.(automatic_new_folder)
      then exec cmd.(command) (cmd.(args) ++ [project_name])
      else
        r <- create_dir (abs project_dir) ;; _ <- unwrap r ;;
        r <- set_current_dir (abs project_dir) ;; _ <- unwrap r ;;
        exec cmd.(command) (cmd.(args) ++ [project_name])
  | NotExists file =>
      r <- create_dir (rel (name_path project_name)) ;; _ <- unwrap r ;;
      r <- set_current_dir (abs project_dir) ;; _ <- unwrap r ;;
      let '(popped, file_copy) := vec_pop file in
      file_name <- unwrap_opt popped ;;
      let p := file_copy in
      r <- create_dir_all (rel p) ;; _ <- unwrap r ;;
      r <- set_current_dir (abs (project_dir ++ p)) ;; _ <- unwrap r ;;
      r <- file_create (rel [file_name]) ;; h <- unwrap r ;;
      r <- write_all h stub_contents ;;
      unwrap r
  end.

Definition main (ins : list input) : M unit :=
  r <- enter_alternate_screen ;; _ <- unwrap r ;;
  r <- enable_raw_mode ;; _ <- unwrap r ;;
  '(r, ins) <- get_project_name ins ;;
  project_name <- (match r with
                   | Ok name => ret name
                   | Err GracefulShutdown => exit_program_gracefully
                   | Err Io => halt_with HPanic
                   end) ;;
  '(r, ins) <- get_selected_language ins ;;
  language <- unwrap r ;;
  _ <- dispatch project_name language ;;
  r <- leave_alternate_screen ;; _ <- unwrap r ;;
  r <- disable_raw_mode ;; _ <- unwrap r ;;
  println (lit "Done!").

End Program.

(* ------------------------------------------------------------------ *)
(** ** Key events used in the statements *)

(** A key press with no modifier. *)
Definition press (c : KeyCode) : input := Read (Key {| code := c; modifiers := NONE |}).

(** Typing the character [c] with the modifiers [m]. *)
Definition typed (c : rchar) (m : N) : KeyEvent := {| code := Char c; modifiers := m |}.

(** The interrupt chord Ctrl-C. *)
Definition ctrl_c : KeyEvent := typed (N_of_ascii "c"%char) CONTROL.

(** The editing keys of a prefix of the name entry, applied in order;
    [None] when one of them ends the loop. *)
Fixpoint name_edits (keys : list KeyEvent) (project_name : rstring) : option rstring :=
  match keys with
  | [] => Some project_name
  | k :: keys =>
      match name_key k project_name with
      | NContinue project_name => name_edits keys project_name
      | NReturn _ => None
      end
  end.

(** An initial process: a home directory, the three generators installed. *)
Definition demo_state : St :=
  {| raw := false; alt := false; io_budget := None; cwd := [lit "home"];
     fs := [([lit "home"], Dir)]; installed := [lit "cargo"; lit "dune"; lit "cabal"];
     trace := [] |}.

(** Typing the letter [d]. *)
Definition key_d : input := Read (Key (typed (N_of_ascii "d"%char) NONE)).

(** How a run ended ([None]: it returned) and the state it ended in. *)
Definition outcome_halt {A} (o : outcome A) : option halt :=
  match o with Done _ _ => None | Halted h _ => Some h end.
Definition final_state {A} (o : outcome A) : St :=
  match o with Done _ s => s | Halted _ s => s end.

(* ------------------------------------------------------------------ *)
(** ** Auxiliary notions of the proofs *)

(** The entry of a language in the literal of [LANGUAGES]. *)
Definition lang_entry (l : ProjectLanguage) : CommandExists :=
  match find (fun e => ProjectLanguage_eqb (fst e) l) LANGUAGES_entries with
  | Some e => snd e
  | None => NotExists []
  end.

Definition all_buckets : list Z := map Z.of_nat (seq 0 8).

(** An action taken in raw mode on the alternate screen. *)
Definition modes_on (e : entry) : Prop := raw_then e = true /\ alt_then e = true.

(** The state is in raw mode on the alternate screen, and every action
    logged since the trace [t0] was taken in that mode. *)
Definition Inv (t0 : list entry) (s : St) : Prop :=
  raw s = true /\ alt s = true /\ exists t, trace s = t0 ++ t /\ Forall modes_on t.

(** [m] keeps [Inv] whenever it returns. *)
Definition Pres {A} (m : M A) : Prop :=
  forall t0 s a s', Inv t0 s -> m s = Done a s' -> Inv t0 s'.

(* ------------------------------------------------------------------ *)
(** ** Further notions of the proofs *)

(** [m] changes nothing but the I/O budget, whatever its outcome. *)
Definition Quiet {A} (m : M A) : Prop :=
  forall s, with_budget (io_budget s) (final_state (m s)) = s.

(** Lines 129-133 of [main]: the tear-down after the dispatch. *)
Definition teardown : M unit :=
  r <- leave_alternate_screen ;; _ <- unwrap r ;;
  r <- disable_raw_mode ;; _ <- unwrap r ;;
  println (lit "Done!").

(** What lines 177-189 of [print_selection] draw: for each entry of
    [LANGUAGES.iter()], a [MoveTo(0, index + 1)] and a styled line, yellow
    ([true]) or magenta ([false]). *)
Record styled_line := { row : Z; text : rstring; yellow : bool }.

(** One iteration of the [for] loop; [None] is the panic of
    [(index + 1).try_into().unwrap()] into a [u16]. *)
Definition selection_entry (selected index : Z) (language : ProjectLanguage) : option styled_line :=
  if index + 1 <? 2 ^ 16
  then Some (if index =? selected
             then {| row := index + 1; text := lit "> " ++ display language ++ [10%N]; yellow := true |}
             else {| row := index + 1; text := lit "  " ++ display language ++ [10%N]; yellow := false |})
  else None.

(** The loop over the entries from position [index] on. *)
Fixpoint selection_entries (selected index : Z) (l : list (ProjectLanguage * CommandExists))
  : option (list styled_line) :=
  match l with
  | [] => Some []
  | (language, _) :: l =>
      match selection_entry selected index language with
      | None => None
      | Some ln => option_map (cons ln) (selection_entries selected (index + 1) l)
      end
  end.

(** The lines of the screen drawn for the selection [selected]. *)
Definition selection_screen (k0 k1 selected : Z) : option (list styled_line) :=
  selection_entries selected 0 (LANGUAGES_iter k0 k1).

(** The highlighted line expected for the entry [o] at position [selected]. *)
Definition cursor_line (selected : Z) (o : option (ProjectLanguage * CommandExists)) : list styled_line :=
  match o with
  | Some e => [{| row := selected + 1; text := lit "> " ++ display (fst e) ++ [10%N]; yellow := true |}]
  | None => []
  end.

(* ================================================================== *)
(** * Proofs *)

(** ** The hash table lists every entry exactly once *)

Section Table.

Context {A : Type}.

Lemma filter_split {B} (p : B -> bool) (l : list B) :
  Permutation l (filter p l ++ filter (fun x => negb (p x)) l).
Proof.
  induction l as [|x l IH]; simpl; [constructor|].
  destruct (p x); simpl.
  - constructor; exact IH.
  - eapply perm_trans; [apply perm_skip, IH|]. apply Permutation_middle.
Qed.

Lemma filter_other_slot (tbl : list (Z * A)) (i j : Z) :
  j <> i ->
  filter (fun e => fst e =? j) (filter (fun e => negb (fst e =? i)) tbl)
  = filter (fun e => fst e =? j) tbl.
Proof.
  intros Hji. induction tbl as [|e tbl IH]; simpl; [reflexivity|].
  destruct (fst e =? i) eqn:Ei; simpl.
  - apply Z.eqb_eq in Ei. destruct (fst e =? j) eqn:Ej; [|exact IH].
    apply Z.eqb_eq in Ej. congruence.
  - destruct (fst e =? j); [f_equal|]; exact IH.
Qed.

Lemma flat_map_ext_in {B C} (f g : B -> list C) (l : list B) :
  (forall x, In x l -> f x = g x) -> flat_map f l = flat_map g l.
Proof.
  induction l as [|x l IH]; intros H; simpl; [reflexivity|].
  rewrite (H x (or_introl eq_refl)), IH; [reflexivity|].
  intros y Hy. apply H. right. exact Hy.
Qed.

(** Collecting the entries bucket by bucket, over a list of distinct
    bucket indices that covers every entry, is a permutation. *)
Lemma collect_by_slot (idx : list Z) :
  NoDup idx ->
  forall tbl : list (Z * A),
  (forall e, In e tbl -> In (fst e) idx) ->
  Permutation (flat_map (fun i => filter (fun e => fst e =? i) tbl) idx) tbl.
Proof.
  induction 1 as [|i idx Hni Hnd IH]; intros tbl Hin; simpl.
  - destruct tbl as [|e tbl]; [constructor|].
    destruct (Hin e (or_introl eq_refl)).
  - rewrite (flat_map_ext_in _
               (fun j => filter (fun e => fst e =? j)
                           (filter (fun e => negb (fst e =? i)) tbl))).
    + eapply perm_trans; [|apply Permutation_sym, (filter_split (fun e => fst e =? i))].
      apply Permutation_app_head, IH.
      intros e He. apply filter_In in He as [He Hne].
      destruct (Hin e He) as [Heq|Hidx]; [|exact Hidx].
      subst i. rewrite Z.eqb_refl in Hne. discriminate.
    + intros j Hj. symmetry. apply filter_other_slot. intros ->. contradiction.
Qed.

Lemma flat_map_map_snd {B} (f : Z -> list (Z * B)) (idx : list Z) :
  flat_map (fun i => map snd (f i)) idx = map snd (flat_map f idx).
Proof.
  induction idx as [|i idx IH]; simpl; [reflexivity|].
  rewrite map_app, IH. reflexivity.
Qed.

End Table.

Lemma all_buckets_NoDup : NoDup all_buckets.
Proof.
  unfold all_buckets; simpl.
  repeat constructor; simpl; intuition discriminate.
Qed.

Lemma in_all_buckets (i : Z) : 0 <= i < 8 -> In i all_buckets.
Proof.
  intros H. unfold all_buckets.
  rewrite <- (Z2Nat.id i) by lia. apply in_map, in_seq. lia.
Qed.

Lemma land_mask (x : Z) : Z.land x bucket_mask = x mod 8.
Proof.
  change bucket_mask with (Z.ones 3). rewrite Z.land_ones; [reflexivity|lia].
Qed.

Lemma first_free_range (used : list Z) (pos : Z) (k : nat) :
  0 <= pos < 8 -> 0 <= first_free used pos k < 8.
Proof.
  revert pos; induction k as [|k IH]; intros pos Hpos; simpl; [exact Hpos|].
  destruct (existsb (Z.eqb pos) used); [|exact Hpos].
  apply IH. rewrite land_mask. apply Z.mod_pos_bound. lia.
Qed.

Lemma existsb_eqb_In (x : Z) (l : list Z) : existsb (Z.eqb x) l = true <-> In x l.
Proof.
  rewrite existsb_exists. split.
  - intros [y [Hy Hxy]]. apply Z.eqb_eq in Hxy. subst. exact Hy.
  - intros H. exists x. split; [exact H|apply Z.eqb_refl].
Qed.

(** The probe finds a free bucket when one is reachable within the fuel. *)
Lemma first_free_free (used : list Z) (k : nat) :
  forall pos, 0 <= pos < 8 ->
  (exists d, (d < k)%nat /\ ~ In ((pos + Z.of_nat d) mod 8) used) ->
  ~ In (first_free used pos k) used.
Proof.
  induction k as [|k IH]; intros pos Hpos [d [Hd Hfree]]; [lia|].
  simpl. destruct (existsb (Z.eqb pos) used) eqn:E.
  - apply existsb_eqb_In in E.
    destruct d as [|d].
    + rewrite Z.add_0_r, Z.mod_small in Hfree by lia. contradiction.
    + apply IH.
      * rewrite land_mask. apply Z.mod_pos_bound. lia.
      * exists d. split; [lia|].
        rewrite land_mask, Z.add_mod_idemp_l by lia.
        replace (pos + 1 + Z.of_nat d) with (pos + Z.of_nat (S d)) by lia.
        exact Hfree.
  - intros Hin. apply existsb_eqb_In in Hin. congruence.
Qed.

(** Fewer than eight used buckets leave one free. *)
Lemma free_bucket_exists (used : list Z) :
  (List.length used < 8)%nat -> exists j, 0 <= j < 8 /\ ~ In j used.
Proof.
  intros Hlen.
  destruct (existsb (fun j => negb (existsb (Z.eqb j) used)) all_buckets) eqn:E.
  - apply existsb_exists in E as [j [Hj Hn]].
    exists j. split.
    + unfold all_buckets in Hj. apply in_map_iff in Hj as [n [<- Hn']].
      apply in_seq in Hn'. lia.
    + intros Hin. apply existsb_eqb_In in Hin. rewrite Hin in Hn. discriminate.
  - exfalso.
    assert (Hincl : incl all_buckets used).
    { intros j Hj. apply existsb_eqb_In.
      destruct (existsb (Z.eqb j) used) eqn:Ej; [reflexivity|].
      assert (existsb (fun j => negb (existsb (Z.eqb j) used)) all_buckets = true)
        as Hc by (apply existsb_exists; exists j; rewrite Ej; auto).
      congruence. }
    pose proof (NoDup_incl_length all_buckets_NoDup Hincl) as Hl.
    unfold all_buckets in Hl. rewrite length_map, length_seq in Hl. lia.
Qed.

Lemma place_spec {B} (h : B -> Z) (es : list B) :
  forall tbl : list (Z * B),
  NoDup (map fst tbl) ->
  (forall e, In e tbl -> 0 <= fst e < 8) ->
  (List.length tbl + List.length es <= 8)%nat ->
  let t := place h tbl es in
  NoDup (map fst t) /\ (forall e, In e t -> 0 <= fst e < 8) /\
  map snd t = map snd tbl ++ es.
Proof.
  induction es as [|x es IH]; intros tbl Hnd Hrange Hlen; cbn [place]; cbv zeta.
  - rewrite app_nil_r. auto.
  - set (b := first_free (map fst tbl) (Z.land (h x) bucket_mask) 8).
    assert (Hstart : 0 <= Z.land (h x) bucket_mask < 8)
      by (rewrite land_mask; apply Z.mod_pos_bound; lia).
    assert (Hb : 0 <= b < 8) by (apply first_free_range; exact Hstart).
    assert (Hfree : ~ In b (map fst tbl)).
    { apply first_free_free; [exact Hstart|].
      destruct (free_bucket_exists (map fst tbl)) as [j [Hj Hnj]].
      { rewrite length_map. simpl in Hlen. lia. }
      exists (Z.to_nat ((j - Z.land (h x) bucket_mask) mod 8)). split.
      - assert (0 <= (j - Z.land (h x) bucket_mask) mod 8 < 8)
          by (apply Z.mod_pos_bound; lia).
        lia.
      - rewrite Z2Nat.id by (apply Z.mod_pos_bound; lia).
        rewrite Z.add_mod_idemp_r by lia.
        replace (Z.land (h x) bucket_mask + (j - Z.land (h x) bucket_mask)) with j by lia.
        rewrite Z.mod_small by lia. exact Hnj. }
    destruct (IH (tbl ++ [(b, x)])) as [H1 [H2 H3]].
    + rewrite map_app. simpl. apply NoDup_app; auto using NoDup_cons, NoDup_nil.
      intros y Hy [Hy'|[]]. subst y. contradiction.
    + intros e He. apply in_app_or in He as [He|[He|[]]]; [auto|subst; exact Hb].
    + rewrite length_app. simpl in *. lia.
    + split; [exact H1|]. split; [exact H2|].
      rewrite H3, map_app, <- app_assoc. reflexivity.
Qed.

(** For every choice of the random keys, [LANGUAGES.iter()] yields the five
    entries of the table exactly once each. *)
Lemma LANGUAGES_iter_perm (k0 k1 : Z) :
  Permutation (LANGUAGES_iter k0 k1) LANGUAGES_entries.
Proof.
  unfold LANGUAGES_iter, table_iter.
  destruct (place_spec (fun e => make_hash k0 k1 (fst e)) LANGUAGES_entries [])
    as [_ [Hrange Hsnd]].
  - constructor.
  - intros e [].
  - apply Nat.leb_le. reflexivity.
  - set (t := place (fun e => make_hash k0 k1 (fst e)) [] LANGUAGES_entries) in *.
    rewrite flat_map_map_snd.
    change (map Z.of_nat (seq 0 8)) with all_buckets.
    transitivity (map snd t); [|rewrite Hsnd; reflexivity].
    apply Permutation_map, collect_by_slot; [exact all_buckets_NoDup|].
    intros e He. apply in_all_buckets, Hrange, He.
Qed.

Lemma LANGUAGES_iter_length (k0 k1 : Z) : List.length (LANGUAGES_iter k0 k1) = 5%nat.
Proof. rewrite (Permutation_length (LANGUAGES_iter_perm k0 k1)). reflexivity. Qed.

(** ** Running the monad *)

Lemma bind_Done {A B} (m : M A) (k : A -> M B) s a s' :
  m s = Done a s' -> bind m k s = k a s'.
Proof. intros H. unfold bind. rewrite H. reflexivity. Qed.

Lemma bind_Halted {A B} (m : M A) (k : A -> M B) s h s' :
  m s = Halted h s' -> bind m k s = Halted h s'.
Proof. intros H. unfold bind. rewrite H. reflexivity. Qed.

Lemma bindR_Ok {A B} (m : M (result A MyError)) (k : A -> M (result B MyError)) s a s' :
  m s = Done (Ok a) s' -> bindR m k s = k a s'.
Proof. intros H. unfold bindR, bind. rewrite H. reflexivity. Qed.

Lemma bind_inv {A B} (m : M A) (k : A -> M B) s b s' :
  bind m k s = Done b s' -> exists a s1, m s = Done a s1 /\ k a s1 = Done b s'.
Proof.
  unfold bind. destruct (m s) as [a s1|h s1]; intros H; [|discriminate].
  exists a, s1. split; [reflexivity|exact H].
Qed.

Lemma with_budget_None (s : St) : io_budget s = None -> with_budget None s = s.
Proof. destruct s; simpl; intros ->; reflexivity. Qed.

Lemma screen_op_ok (s : St) : io_budget s = None -> screen_op s = Done (Ok tt) s.
Proof.
  intros H. unfold screen_op, term_op. rewrite H.
  rewrite with_budget_None by exact H. reflexivity.
Qed.

Lemma clear_screen_ok (s : St) : io_budget s = None -> clear_screen s = Done (Ok tt) s.
Proof.
  intros H. unfold clear_screen.
  rewrite (bindR_Ok _ _ _ _ _ (screen_op_ok s H)).
  rewrite (bindR_Ok _ _ _ _ _ (screen_op_ok s H)).
  apply screen_op_ok, H.
Qed.

Lemma queue_each_ok {A} (l : list A) (s : St) :
  io_budget s = None -> queue_each l s = Done (Ok tt) s.
Proof.
  intros H. induction l as [|x l IH]; [reflexivity|].
  cbn [queue_each]. rewrite (bindR_Ok _ _ _ _ _ (screen_op_ok s H)). exact IH.
Qed.

Lemma print_selection_ok k0 k1 (sel : Z) (s : St) :
  io_budget s = None -> print_selection k0 k1 sel s = Done (Ok tt) s.
Proof.
  intros H. unfold print_selection.
  rewrite (bindR_Ok _ _ _ _ _ (screen_op_ok s H)).
  rewrite (bindR_Ok _ _ _ _ _ (queue_each_ok _ s H)).
  apply screen_op_ok, H.
Qed.

(** ** One turn of each input loop *)

Lemma select_loop_key oc k0 k1 (key : KeyEvent) ins (sel : Z) (s : St) :
  io_budget s = None ->
  select_loop oc k0 k1 (Read (Key key) :: ins) sel s =
  match select_key oc key.(code) sel with
  | SMove v => select_loop oc k0 k1 ins v s
  | SBreak => Done (Ok sel, ins) s
  | SPanic => Halted HPanic s
  end.
Proof.
  intros H. cbn [select_loop].
  rewrite (bind_Done _ _ _ _ _ (clear_screen_ok s H)).
  rewrite (bind_Done _ _ _ _ _ (print_selection_ok k0 k1 sel s H)).
  rewrite (bind_Done _ _ _ _ _ (eq_refl : unwrap (Ok tt) s = Done tt s)).
  destruct (select_key oc (code key) sel); reflexivity.
Qed.

Lemma name_loop_continue (key : KeyEvent) ins (buf buf' : rstring) (s : St) :
  io_budget s = None -> name_key key buf = NContinue buf' ->
  name_loop (Read (Key key) :: ins) buf s = name_loop ins buf' s.
Proof.
  intros H Hk. cbn [name_loop]. rewrite Hk.
  assert (Hr : (_ <-? clear_screen ;; _ <-? screen_op ;; screen_op) s = Done (Ok tt) s).
  { rewrite (bindR_Ok _ _ _ _ _ (clear_screen_ok s H)).
    rewrite (bindR_Ok _ _ _ _ _ (screen_op_ok s H)).
    apply screen_op_ok, H. }
  rewrite (bind_Done _ _ _ _ _ Hr). reflexivity.
Qed.

Lemma name_loop_edits (keys : list KeyEvent) rest (buf buf' : rstring) (s : St) :
  io_budget s = None -> name_edits keys buf = Some buf' ->
  name_loop (map (fun k => Read (Key k)) keys ++ rest) buf s = name_loop rest buf' s.
Proof.
  intros H. revert buf. induction keys as [|k keys IH]; intros buf He.
  - injection He as <-. reflexivity.
  - cbn [name_edits] in He. cbn [map app].
    destruct (name_key k buf) as [r|b] eqn:Ek; [discriminate|].
    rewrite (name_loop_continue _ _ _ _ _ H Ek). apply IH, He.
Qed.

Lemma name_edits_typed (keys : list (rchar * N)) (buf : rstring) :
  Forall (fun p => snd p = NONE \/ snd p = SHIFT) keys ->
  name_edits (map (fun p => typed (fst p) (snd p)) keys) buf = Some (buf ++ map fst keys).
Proof.
  revert buf. induction keys as [|[c m] keys IH]; intros buf Hp.
  - rewrite app_nil_r. reflexivity.
  - inversion Hp as [|? ? Hm Hrest]; subst. simpl in Hm.
    cbn [map name_edits fst snd].
    assert (Hk : name_key (typed c m) buf = NContinue (buf ++ [c])).
    { unfold name_key, typed; cbn [code modifiers].
      destruct Hm as [-> | ->]; rewrite andb_false_r; reflexivity. }
    rewrite Hk, IH by exact Hrest. rewrite <- app_assoc. reflexivity.
Qed.

(** ** Between set-up and tear-down the terminal stays raw and alternate *)

Lemma Inv_log t0 s a : Inv t0 s -> Inv t0 (log a s).
Proof.
  intros [Hr [Ha [t [Ht Hf]]]]. unfold log; cbn.
  split; [exact Hr|]. split; [exact Ha|].
  exists (t ++ [{| act := a; raw_then := raw s; alt_then := alt s |}]).
  rewrite Ht, app_assoc. split; [reflexivity|].
  apply Forall_app. split; [exact Hf|]. constructor; [|constructor].
  split; assumption.
Qed.

Lemma Inv_with_budget t0 s b : Inv t0 s -> Inv t0 (with_budget b s).
Proof. destruct s; exact (fun H => H). Qed.
Lemma Inv_with_fs t0 s f : Inv t0 s -> Inv t0 (with_fs f s).
Proof. destruct s; exact (fun H => H). Qed.
Lemma Inv_with_cwd t0 s p : Inv t0 s -> Inv t0 (with_cwd p s).
Proof. destruct s; exact (fun H => H). Qed.

Create HintDb pres.

Ltac op_pres :=
  let t0 := fresh "t0" in let s := fresh "s" in let a := fresh "a" in
  let s' := fresh "s'" in let HI := fresh "HI" in let H := fresh "H" in
  intros t0 s a s' HI H;
  repeat match type of H with
         | context [match ?x with _ => _ end] => destruct x
         end;
  try discriminate H;
  injection H as _ <-;
  repeat (apply Inv_with_fs || apply Inv_with_cwd || apply Inv_with_budget || apply Inv_log);
  exact HI.

Lemma Pres_ret {A} (a : A) : Pres (ret a).
Proof. unfold ret. op_pres. Qed.
Lemma Pres_halt {A} (h : halt) : Pres (@halt_with A h).
Proof. unfold halt_with. op_pres. Qed.
Lemma Pres_unwrap {A E} (r : result A E) : Pres (unwrap r).
Proof. unfold unwrap. op_pres. Qed.
Lemma Pres_unwrap_opt {A} (o : option A) : Pres (unwrap_opt o).
Proof. unfold unwrap_opt. op_pres. Qed.
Lemma Pres_current_dir : Pres current_dir.
Proof. unfold current_dir. op_pres. Qed.
Lemma Pres_screen_op : Pres screen_op.
Proof. unfold screen_op, term_op. op_pres. Qed.
Lemma Pres_create_dir p : Pres (create_dir p).
Proof. unfold create_dir. op_pres. Qed.
Lemma Pres_create_dir_all p : Pres (create_dir_all p).
Proof. unfold create_dir_all. op_pres. Qed.
Lemma Pres_set_current_dir p : Pres (set_current_dir p).
Proof. unfold set_current_dir. op_pres. Qed.
Lemma Pres_file_create p : Pres (file_create p).
Proof. unfold file_create. op_pres. Qed.
Lemma Pres_write_all h b : Pres (write_all h b).
Proof. unfold write_all. op_pres. Qed.
Lemma Pres_exec p a : Pres (exec p a).
Proof. unfold exec. op_pres. Qed.

Lemma Pres_bind {A B} (m : M A) (k : A -> M B) :
  Pres m -> (forall a, Pres (k a)) -> Pres (bind m k).
Proof.
  intros Hm Hk t0 s b s' HI H. apply bind_inv in H as [a [s1 [H1 H2]]].
  exact (Hk a t0 s1 b s' (Hm t0 s a s1 HI H1) H2).
Qed.

Lemma Pres_bindR {A B} (m : M (result A MyError)) (k : A -> M (result B MyError)) :
  Pres m -> (forall a, Pres (k a)) -> Pres (bindR m k).
Proof.
  intros Hm Hk. unfold bindR. apply Pres_bind; [exact Hm|].
  intros [a|e]; [apply Hk|apply Pres_ret].
Qed.

Global Hint Resolve Pres_ret Pres_halt Pres_unwrap Pres_unwrap_opt Pres_current_dir
  Pres_screen_op Pres_create_dir Pres_create_dir_all Pres_set_current_dir
  Pres_file_create Pres_write_all Pres_exec : pres.

Ltac pres :=
  repeat first
    [ solve [eauto with pres]
    | apply Pres_bind; [|intros ?]
    | apply Pres_bindR; [|intros ?]
    | progress cbv zeta
    | match goal with |- Pres (match ?x with _ => _ end) => destruct x end ].

Lemma Pres_clear_screen : Pres clear_screen.
Proof. unfold clear_screen. pres. Qed.
Global Hint Resolve Pres_clear_screen : pres.

Lemma Pres_name_loop ins : forall buf, Pres (name_loop ins buf).
Proof.
  induction ins as [|i ins IH]; intros buf; cbn [name_loop]; [pres|].
  destruct i as [[key| |]|]; pres.
Qed.
Global Hint Resolve Pres_name_loop : pres.

Lemma Pres_get_project_name ins : Pres (get_project_name ins).
Proof. unfold get_project_name. pres. Qed.

Lemma Pres_queue_each {A} (l : list A) : Pres (queue_each l).
Proof. induction l; cbn [queue_each]; pres. Qed.
Global Hint Resolve Pres_queue_each : pres.

Lemma Pres_print_selection k0 k1 sel : Pres (print_selection k0 k1 sel).
Proof. unfold print_selection. pres. Qed.
Global Hint Resolve Pres_print_selection : pres.

Lemma Pres_select_loop oc k0 k1 ins : forall sel, Pres (select_loop oc k0 k1 ins sel).
Proof.
  induction ins as [|i ins IH]; intros sel; cbn [select_loop]; pres.
Qed.
Global Hint Resolve Pres_select_loop : pres.

Lemma Pres_get_selected_language oc k0 k1 ins : Pres (get_selected_language oc k0 k1 ins).
Proof. unfold get_selected_language. pres. Qed.

Lemma Pres_dispatch k0 k1 name l : Pres (dispatch k0 k1 name l).
Proof. unfold dispatch. pres. Qed.

Lemma exit_program_gracefully_halts {A} (s : St) :
  forall (a : A) s', exit_program_gracefully s <> Done a s'.
Proof.
  intros a s'. unfold exit_program_gracefully, bind, halt_with.
  repeat match goal with |- context [match ?x with _ => _ end] => destruct x end;
    discriminate.
Qed.

Lemma Pres_exit_program_gracefully {A} : Pres (@exit_program_gracefully A).
Proof. intros t0 s a s' _ H. exfalso. exact (exit_program_gracefully_halts s a s' H). Qed.

(** ** The runs of [main] that return *)

Lemma step_term_op {B} (a : action) (f : St -> St) (k : unit -> M B) s b s' :
  bind (term_op (Some a) f) (fun r => bind (unwrap r) k) s = Done b s' ->
  exists bud, k tt (f (log a (with_budget bud s))) = Done b s'.
Proof.
  unfold bind at 1, term_op.
  destruct (io_budget s) as [[|n]|]; intros H.
  - discriminate H.
  - exists (Some n). exact H.
  - exists None. exact H.
Qed.

Lemma println_Done line s s' :
  println line s = Done tt s' -> exists bud, s' = log (APrintln line) (with_budget bud s).
Proof.
  unfold println, bind, term_op.
  destruct (io_budget s) as [[|n]|]; intros H.
  - discriminate H.
  - exists (Some n). injection H as <-. reflexivity.
  - exists None. injection H as <-. reflexivity.
Qed.

(** When [main] returns, the terminal was put into raw mode on the
    alternate screen first, every action in between (the whole dispatch)
    ran in that mode, and only then were the alternate screen left, raw
    mode disabled and "Done!" printed. *)
Lemma main_returns oc k0 k1 ins s s' :
  main oc k0 k1 ins s = Done tt s' ->
  raw s' = false /\ alt s' = false /\
  exists mid,
    trace s' = trace s ++
      [{| act := AEnterAlternateScreen; raw_then := raw s; alt_then := alt s |};
       {| act := AEnableRawMode; raw_then := raw s; alt_then := true |}] ++ mid ++
      [{| act := ALeaveAlternateScreen; raw_then := true; alt_then := true |};
       {| act := ADisableRawMode; raw_then := true; alt_then := false |};
       {| act := APrintln (lit "Done!"); raw_then := false; alt_then := false |}] /\
    Forall modes_on mid.
Proof.
  intros H. unfold main, enter_alternate_screen in H.
  apply step_term_op in H as [b1 H]. cbv beta in H.
  unfold enable_raw_mode in H.
  apply step_term_op in H as [b2 H]. cbv beta in H.
  set (s2 := with_terminal true _ (log AEnableRawMode (with_budget b2 _))) in H.
  assert (HI : Inv (trace s2) s2).
  { split; [reflexivity|]. split; [reflexivity|].
    exists []. rewrite app_nil_r. split; [reflexivity|constructor]. }
  apply bind_inv in H as [[r ins1] [s3 [H3 H]]].
  pose proof (Pres_get_project_name ins _ _ _ _ HI H3) as HI3.
  apply bind_inv in H as [name [s4 [H4 H]]].
  assert (HI4 : Inv (trace s2) s4).
  { destruct r as [nm|[|]]; revert H4;
      [apply Pres_ret|apply Pres_halt|apply Pres_exit_program_gracefully]; exact HI3. }
  apply bind_inv in H as [[r' ins2] [s5 [H5 H]]].
  pose proof (Pres_get_selected_language oc k0 k1 ins1 _ _ _ _ HI4 H5) as HI5.
  apply bind_inv in H as [lang [s6 [H6 H]]].
  pose proof (Pres_unwrap _ _ _ _ _ HI5 H6) as HI6.
  apply bind_inv in H as [u [s7 [H7 H]]].
  pose proof (Pres_dispatch k0 k1 name lang _ _ _ _ HI6 H7) as [Hr7 [Ha7 [mid [Ht7 Hmid]]]].
  unfold leave_alternate_screen in H.
  apply step_term_op in H as [b3 H]. cbv beta in H.
  unfold disable_raw_mode in H.
  apply step_term_op in H as [b4 H]. cbv beta in H.
  apply println_Done in H as [b5 ->].
  clear H3 H4 H5 H6 H7 HI HI3 HI4 HI5 HI6.
  destruct s7 as [r7 a7 bu7 c7 f7 i7 t7]; cbn in Hr7, Ha7, Ht7 |- *. subst r7 a7 t7.
  split; [reflexivity|]. split; [reflexivity|].
  exists mid. split; [|exact Hmid].
  subst s2. destruct s as [r0 a0 bu0 c0 f0 i0 t0]; cbn.
  rewrite <- !app_assoc. reflexivity.
Qed.

(** ** The runs of [main] that end during the name entry *)

Lemma term_op_ok (a : action) (f : St -> St) (s : St) :
  io_budget s = None -> term_op (Some a) f s = Done (Ok tt) (f (log a s)).
Proof. intros H. unfold term_op. rewrite H, with_budget_None by exact H. reflexivity. Qed.

Lemma get_project_name_prefix (keys : list KeyEvent) rest (buf : rstring) (s : St) :
  io_budget s = None -> name_edits keys [] = Some buf ->
  get_project_name (map (fun k => Read (Key k)) keys ++ rest) s = name_loop rest buf s.
Proof.
  intros H He. unfold get_project_name.
  rewrite (bind_Done _ _ _ _ _ (clear_screen_ok s H)).
  apply name_loop_edits; assumption.
Qed.

Lemma println_ok (line : rstring) (s : St) :
  io_budget s = None -> println line s = Done tt (log (APrintln line) s).
Proof.
  intros H. unfold println.
  rewrite (bind_Done _ _ _ _ _ (term_op_ok _ _ s H)). reflexivity.
Qed.

Ltac run_op H :=
  first [ erewrite bind_Done; [|apply term_op_ok; cbn; exact H]
        | erewrite bind_Done; [|apply println_ok; cbn; exact H]
        | erewrite bind_Done; [|reflexivity] ]; cbv beta.

(** Ctrl-C typed at any point of the name entry exits with status 0 after
    restoring the terminal; a failing read at any point panics with the
    terminal still in raw mode on the alternate screen. *)
Lemma main_name_entry oc k0 k1 (keys : list KeyEvent) (buf : rstring) rest (s : St) :
  io_budget s = None -> name_edits keys [] = Some buf ->
  (exists s', main oc k0 k1 (map (fun k => Read (Key k)) keys ++ Read (Key ctrl_c) :: rest) s
              = Halted (HExit 0) s' /\ raw s' = false /\ alt s' = false) /\
  (exists s', main oc k0 k1 (map (fun k => Read (Key k)) keys ++ ReadError :: rest) s
              = Halted HPanic s' /\ raw s' = true /\ alt s' = true).
Proof.
  intros H He.
  split; unfold main, enter_alternate_screen, enable_raw_mode; do 4 run_op H.
  - erewrite bind_Done;
      [|rewrite (get_project_name_prefix _ _ buf); [reflexivity|cbn; exact H|exact He]].
    cbv beta iota.
    unfold exit_program_gracefully, leave_alternate_screen, disable_raw_mode.
    erewrite bind_Halted.
    2:{ do 5 run_op H. reflexivity. }
    eexists; split; [reflexivity|split; reflexivity].
  - erewrite bind_Halted;
      [|rewrite (get_project_name_prefix _ _ buf); [reflexivity|cbn; exact H|exact He]].
    eexists; split; [reflexivity|split; reflexivity].
Qed.

(** ** The selection loop *)

Lemma select_key_down oc (v : Z) :
  0 <= v -> v + 1 < usize_modulus -> select_key oc Down v = SMove (v + 1).
Proof.
  intros H0 H1. unfold select_key, usize_add.
  destruct (usize_modulus <=? v + 1) eqn:E; [apply Z.leb_le in E; lia|reflexivity].
Qed.

Lemma select_key_up_release (v : Z) :
  0 <= v < usize_modulus -> select_key false Up v = SMove ((v - 1) mod usize_modulus).
Proof.
  intros Hv. unfold select_key, usize_sub.
  destruct (v - 1 <? 0) eqn:E; [reflexivity|].
  apply Z.ltb_ge in E. rewrite Z.mod_small by lia. reflexivity.
Qed.

Lemma select_key_up_pos oc (v : Z) : 0 < v -> select_key oc Up v = SMove (v - 1).
Proof.
  intros Hv. unfold select_key, usize_sub.
  destruct (v - 1 <? 0) eqn:E; [apply Z.ltb_lt in E; lia|reflexivity].
Qed.

Lemma select_loop_enter oc k0 k1 rest (sel : Z) (s : St) :
  io_budget s = None ->
  select_loop oc k0 k1 (press Enter :: rest) sel s = Done (Ok sel, rest) s.
Proof. intros H. unfold press. rewrite select_loop_key by exact H. reflexivity. Qed.

(** [n] presses of Down then Enter, from [i]: the loop confirms [i + n]. *)
Lemma select_loop_downs oc k0 k1 (n : nat) :
  forall rest (i : Z) (s : St),
  io_budget s = None -> 0 <= i -> i + Z.of_nat n < usize_modulus ->
  select_loop oc k0 k1 (repeat (press Down) n ++ press Enter :: rest) i s
  = Done (Ok (i + Z.of_nat n), rest) s.
Proof.
  induction n as [|n IH]; intros rest i s H Hi Hn; cbn [repeat app].
  - rewrite Z.add_0_r. apply select_loop_enter, H.
  - unfold press at 1. rewrite select_loop_key by exact H. cbn [code].
    rewrite select_key_down by lia.
    rewrite IH by (exact H || lia). do 3 f_equal. lia.
Qed.

(** In a release build, [n] presses of Up then Enter, from [i]: the loop
    confirms [i - n] wrapped modulo [2^64]. *)
Lemma select_loop_ups_release k0 k1 (n : nat) :
  forall rest (i : Z) (s : St),
  io_budget s = None -> 0 <= i < usize_modulus ->
  select_loop false k0 k1 (repeat (press Up) n ++ press Enter :: rest) i s
  = Done (Ok ((i - Z.of_nat n) mod usize_modulus), rest) s.
Proof.
  induction n as [|n IH]; intros rest i s H Hi; cbn [repeat app].
  - rewrite Z.sub_0_r, Z.mod_small by exact Hi. apply select_loop_enter, H.
  - unfold press at 1. rewrite select_loop_key by exact H. cbn [code].
    rewrite select_key_up_release by exact Hi.
    rewrite IH by (exact H || (apply Z.mod_pos_bound; unfold usize_modulus; lia)).
    rewrite Zminus_mod_idemp_l. do 4 f_equal. lia.
Qed.

(** In a build with overflow checks, [n + 1] presses of Up from [n] panic. *)
Lemma select_loop_ups_debug k0 k1 (n : nat) :
  forall rest (s : St),
  io_budget s = None ->
  select_loop true k0 k1 (repeat (press Up) (S n) ++ rest) (Z.of_nat n) s = Halted HPanic s.
Proof.
  induction n as [|n IH]; intros rest s H; cbn [repeat app].
  - unfold press at 1. rewrite select_loop_key by exact H. reflexivity.
  - unfold press at 1. rewrite select_loop_key by exact H. cbn [code].
    rewrite select_key_up_pos by lia.
    replace (Z.of_nat (S n) - 1) with (Z.of_nat n) by lia.
    apply IH, H.
Qed.

Lemma iter_nth_nth_error {A} (l : list A) (k : nat) : iter_nth l (Z.of_nat k) = nth_error l k.
Proof.
  revert k. induction l as [|x l IH]; intros k; [destruct k; reflexivity|].
  destruct k as [|k]; [reflexivity|].
  cbn [iter_nth nth_error].
  replace (Z.of_nat (S k) =? 0) with false by (symmetry; apply Z.eqb_neq; lia).
  replace (Z.of_nat (S k) - 1) with (Z.of_nat k) by lia. apply IH.
Qed.

Lemma iter_nth_past_end {A} (l : list A) (n : Z) :
  Z.of_nat (List.length l) <= n -> iter_nth l n = None.
Proof.
  revert n. induction l as [|x l IH]; intros n Hn; [reflexivity|].
  cbn [iter_nth]. cbn [List.length] in Hn.
  replace (n =? 0) with false by (symmetry; apply Z.eqb_neq; lia).
  apply IH. lia.
Qed.

(** [get_selected_language] runs the loop from 0, then takes the entry
    at the confirmed index. *)
Lemma get_selected_language_run oc k0 k1 ins rest (sel : Z) (s : St) :
  io_budget s = None ->
  select_loop oc k0 k1 ins 0 s = Done (Ok sel, rest) s ->
  get_selected_language oc k0 k1 ins s =
  match iter_nth (LANGUAGES_iter k0 k1) sel with
  | Some e => Done (Ok (fst e), rest) s
  | None => Halted HPanic s
  end.
Proof.
  intros H Hl. unfold get_selected_language.
  rewrite (bind_Done _ _ _ _ _ (screen_op_ok s H)).
  rewrite (bind_Done _ _ _ _ _ (eq_refl : unwrap (Ok tt) s = Done tt s)).
  rewrite (bind_Done _ _ _ _ _ Hl). cbv beta iota.
  rewrite (bind_Done _ _ _ _ _ (screen_op_ok s H)).
  rewrite (bind_Done _ _ _ _ _ (eq_refl : unwrap (Ok tt) s = Done tt s)).
  unfold bind, unwrap_opt. destruct (iter_nth (LANGUAGES_iter k0 k1) sel); reflexivity.
Qed.

(** ** Looking a language up in the table *)

Lemma LANGUAGES_get_spec k0 k1 (l : ProjectLanguage) :
  LANGUAGES_get k0 k1 l = Some (lang_entry l).
Proof.
  unfold LANGUAGES_get.
  destruct (find (fun e => ProjectLanguage_eqb (fst e) l) (LANGUAGES_iter k0 k1)) as [e|] eqn:E.
  - apply find_some in E as [Hin Heq].
    apply (Permutation_in _ (LANGUAGES_iter_perm k0 k1)) in Hin.
    unfold LANGUAGES_entries in Hin.
    destruct Hin as [<-|[<-|[<-|[<-|[<-|[]]]]]];
      destruct l; cbn in Heq |- *; try discriminate; reflexivity.
  - exfalso.
    assert (Hin : In (l, lang_entry l) (LANGUAGES_iter k0 k1)).
    { apply (Permutation_in _ (Permutation_sym (LANGUAGES_iter_perm k0 k1))).
      destruct l; cbn; tauto. }
    apply (find_none _ _ E) in Hin. destruct l; discriminate.
Qed.

(** ** The file system operations of the dispatch *)

Lemma path_eqb_spec (p q : path) : path_eqb p q = true <-> p = q.
Proof.
  unfold path_eqb. destruct (list_eq_dec (list_eq_dec N.eq_dec) p q) as [E|E]; split; intros H;
    solve [exact E | reflexivity | discriminate H | contradiction].
Qed.

Lemma find_filter_other (f : list (path * node)) (q q' : path) :
  q' <> q ->
  find (fun e => path_eqb (fst e) q') (filter (fun e => negb (path_eqb (fst e) q)) f)
  = find (fun e => path_eqb (fst e) q') f.
Proof.
  intros Hne. induction f as [|e f IH]; [reflexivity|]. cbn [filter find].
  destruct (path_eqb (fst e) q) eqn:E1; cbn [negb find].
  - apply path_eqb_spec in E1.
    destruct (path_eqb (fst e) q') eqn:E2; [|exact IH].
    apply path_eqb_spec in E2. congruence.
  - rewrite IH. reflexivity.
Qed.

Lemma lookup_update_same (f : list (path * node)) (q : path) (n : node) :
  q <> [] -> lookup (update f q n) q = Some n.
Proof.
  destruct q as [|c q]; [congruence|]. intros _.
  unfold lookup, update. cbn [find fst].
  rewrite (proj2 (path_eqb_spec _ _) eq_refl). reflexivity.
Qed.

Lemma lookup_update_other (f : list (path * node)) (q q' : path) (n : node) :
  q' <> q -> lookup (update f q n) q' = lookup f q'.
Proof.
  destruct q' as [|c q']; [reflexivity|]. intros Hne.
  unfold lookup, update. cbn [find fst].
  destruct (path_eqb q (c :: q')) eqn:E.
  - apply path_eqb_spec in E. congruence.
  - rewrite find_filter_other by exact Hne. reflexivity.
Qed.

Lemma create_dir_new (p : PathBuf) (s : St) :
  lookup (fs s) (resolve s p) = None ->
  is_dir (fs s) (removelast (resolve s p)) = true ->
  create_dir p s = Done (Ok tt)
    (with_fs (update (fs s) (resolve s p) Dir) (log (ACreateDir (resolve s p)) s)).
Proof. intros H1 H2. unfold create_dir. cbv zeta. cbn [fs log]. rewrite H1, H2. reflexivity. Qed.

Lemma set_current_dir_ok (p : PathBuf) (s : St) :
  is_dir (fs s) (resolve s p) = true ->
  set_current_dir p s = Done (Ok tt) (with_cwd (resolve s p) (log (ASetCurrentDir (resolve s p)) s)).
Proof. intros H. unfold set_current_dir. cbv zeta. cbn [fs log]. rewrite H. reflexivity. Qed.

Lemma create_dir_all_here (s : St) :
  create_dir_all (rel []) s = Done (Ok tt) (with_fs (fs s) (log (ACreateDirAll (cwd s ++ [])) s)).
Proof. reflexivity. Qed.

Lemma file_create_new (p : PathBuf) (s : St) :
  lookup (fs s) (resolve s p) <> Some Dir ->
  is_dir (fs s) (removelast (resolve s p)) = true ->
  file_create p s = Done (Ok (resolve s p))
    (with_fs (update (fs s) (resolve s p) (File [])) (log (ACreateFile (resolve s p)) s)).
Proof.
  intros H1 H2. unfold file_create. cbv zeta. cbn [fs log].
  destruct (lookup (fs s) (resolve s p)) as [[|c]|]; [contradiction|rewrite H2; reflexivity..].
Qed.

Lemma write_all_file (h : path) (c b : list Z) (s : St) :
  lookup (fs s) h = Some (File c) ->
  write_all h b s = Done (Ok tt) (with_fs (update (fs s) h (File (c ++ b))) (log (AWriteAll h b) s)).
Proof. intros H. unfold write_all. cbv zeta. cbn [fs log]. rewrite H. reflexivity. Qed.

Lemma snoc_not_nil {A} (l : list A) (x : A) : l ++ [x] <> [].
Proof. intros E. apply app_eq_nil in E as [_ E]. discriminate E. Qed.

Ltac simpl_st :=
  cbn [resolve abs rel absolute comps fs cwd trace raw alt io_budget installed
       with_fs with_cwd log].

Lemma get_selected_language_loop_halts oc k0 k1 ins (h : halt) (s s' : St) :
  io_budget s = None ->
  select_loop oc k0 k1 ins 0 s = Halted h s' ->
  get_selected_language oc k0 k1 ins s = Halted h s'.
Proof.
  intros H Hl. unfold get_selected_language.
  rewrite (bind_Done _ _ _ _ _ (screen_op_ok s H)).
  rewrite (bind_Done _ _ _ _ _ (eq_refl : unwrap (Ok tt) s = Done tt s)).
  apply bind_Halted, Hl.
Qed.

Lemma get_project_name_typed (keys : list (rchar * N)) rest (s : St) :
  io_budget s = None -> Forall (fun p => snd p = NONE \/ snd p = SHIFT) keys ->
  get_project_name (map (fun p => Read (Key (typed (fst p) (snd p)))) keys ++ rest) s
  = name_loop rest (map fst keys) s.
Proof.
  intros H Hk.
  replace (map (fun p => Read (Key (typed (fst p) (snd p)))) keys)
    with (map (fun k => Read (Key k)) (map (fun p => typed (fst p) (snd p)) keys))
    by (rewrite map_map; reflexivity).
  apply get_project_name_prefix; [exact H|].
  exact (name_edits_typed keys [] Hk).
Qed.

(* ================================================================== *)
(** * The claims *)

(** C1: the selection cursor does not wrap around.  With the five
    entries of the menu, Down at the last index 4 gives 5, not 0; Up at
    index 0 panics when overflow checks are on and gives [2^64 - 1] when
    they are off, not 4.  Confirming either index with Enter then panics
    at [LANGUAGES.iter().nth(selected).unwrap()]. *)
Theorem selection_cursor_no_wrap (oc : bool) (k0 k1 : Z) (s : St) :
  io_budget s = None ->
  List.length (LANGUAGES_iter k0 k1) = 5%nat /\
  select_key oc Down 4 = SMove 5 /\
  select_key true Up 0 = SPanic /\
  select_key false Up 0 = SMove (usize_modulus - 1) /\
  get_selected_language oc k0 k1 (repeat (press Down) 5 ++ [press Enter]) s = Halted HPanic s /\
  get_selected_language oc k0 k1 [press Up; press Enter] s = Halted HPanic s.
Proof.
  intros H.
  split; [apply LANGUAGES_iter_length|].
  split; [apply select_key_down; unfold usize_modulus; lia|].
  split; [reflexivity|].
  split; [reflexivity|].
  split.
  - pose proof (select_loop_downs oc k0 k1 5 [] 0 s H ltac:(lia)
                  ltac:(unfold usize_modulus; lia)) as L.
    rewrite (get_selected_language_run _ _ _ _ _ _ _ H L).
    rewrite iter_nth_past_end by (rewrite LANGUAGES_iter_length; lia).
    reflexivity.
  - destruct oc.
    + apply get_selected_language_loop_halts; [exact H|].
      exact (select_loop_ups_debug k0 k1 0 [press Enter] s H).
    + pose proof (select_loop_ups_release k0 k1 1 [] 0 s H
                    ltac:(unfold usize_modulus; lia)) as L.
      change [press Up; press Enter] with (repeat (press Up) 1 ++ [press Enter]).
      rewrite (get_selected_language_run _ _ _ _ _ _ _ H L).
      rewrite iter_nth_past_end; [reflexivity|].
      rewrite LANGUAGES_iter_length.
      rewrite <- (Z.mod_add (0 - Z.of_nat 1) 1 usize_modulus) by (unfold usize_modulus; lia).
      rewrite Z.mod_small by (unfold usize_modulus; lia).
      unfold usize_modulus; lia.
Qed.

Lemma selection_cursor_no_wrap_witness :
  get_selected_language true 0 0 [press Up; press Enter] demo_state = Halted HPanic demo_state.
Proof.
  destruct (selection_cursor_no_wrap true 0 0 demo_state eq_refl) as (_ & _ & _ & _ & _ & W).
  exact W.
Defined.

(** C2: five presses of Down (the length of the menu) from a position
    [i] in [[0, 5)] do not come back to [i]: Enter then confirms [i + 5].
    Five presses of Up confirm [(i - 5) mod 2^64], which is not [i], when
    overflow checks are off, and panic when they are on. *)
Theorem selection_cycle_not_identity (oc : bool) (k0 k1 : Z) (i : Z) (s : St) :
  io_budget s = None -> 0 <= i < 5 ->
  select_loop oc k0 k1 (repeat (press Down) 5 ++ [press Enter]) i s = Done (Ok (i + 5), []) s /\
  i + 5 <> i /\
  select_loop false k0 k1 (repeat (press Up) 5 ++ [press Enter]) i s
    = Done (Ok ((i - 5) mod usize_modulus), []) s /\
  (i - 5) mod usize_modulus <> i /\
  select_loop true k0 k1 (repeat (press Up) 5 ++ [press Enter]) i s = Halted HPanic s.
Proof.
  intros H Hi.
  split; [exact (select_loop_downs oc k0 k1 5 [] i s H ltac:(lia)
                   ltac:(unfold usize_modulus; lia))|].
  split; [lia|].
  split; [exact (select_loop_ups_release k0 k1 5 [] i s H
                   ltac:(unfold usize_modulus; lia))|].
  split.
  - rewrite <- (Z.mod_add (i - 5) 1 usize_modulus) by (unfold usize_modulus; lia).
    rewrite Z.mod_small by (unfold usize_modulus; lia).
    unfold usize_modulus; lia.
  - assert (Hc : i = 0 \/ i = 1 \/ i = 2 \/ i = 3 \/ i = 4) by lia.
    destruct Hc as [-> | [-> | [-> | [-> | ->]]]].
    + exact (select_loop_ups_debug k0 k1 0 (repeat (press Up) 4 ++ [press Enter]) s H).
    + exact (select_loop_ups_debug k0 k1 1 (repeat (press Up) 3 ++ [press Enter]) s H).
    + exact (select_loop_ups_debug k0 k1 2 (repeat (press Up) 2 ++ [press Enter]) s H).
    + exact (select_loop_ups_debug k0 k1 3 (repeat (press Up) 1 ++ [press Enter]) s H).
    + exact (select_loop_ups_debug k0 k1 4 [press Enter] s H).
Qed.

Lemma selection_cycle_not_identity_witness :
  select_loop true 0 0 (repeat (press Down) 5 ++ [press Enter]) 0 demo_state
  = Done (Ok 5, []) demo_state.
Proof.
  destruct (selection_cycle_not_identity true 0 0 0 demo_state eq_refl ltac:(lia)) as [W _].
  exact W.
Defined.

(** C3: Ctrl-C during the language selection is ignored: it leaves the
    cursor where it is and the loop reads the next event.  A session
    that presses Ctrl-C in the menu and then Enter goes on to create the
    project. *)
Theorem ctrl_c_ignored_in_selection (oc : bool) (k0 k1 : Z) ins (sel : Z) (s : St) :
  io_budget s = None ->
  select_key oc (code ctrl_c) sel = SMove sel /\
  select_loop oc k0 k1 (Read (Key ctrl_c) :: ins) sel s = select_loop oc k0 k1 ins sel s /\
  (let o := main true 0 0 [key_d; press Enter; Read (Key ctrl_c); press Enter] demo_state in
   outcome_halt o = None /\
   lookup (fs (final_state o)) [lit "home"; lit "d"; lit "index.html"]
   = Some (File stub_contents)).
Proof.
  intros H.
  split; [reflexivity|].
  split; [rewrite select_loop_key by exact H; reflexivity|].
  vm_compute. split; reflexivity.
Qed.

Lemma ctrl_c_ignored_in_selection_witness :
  select_loop true 0 0 [Read (Key ctrl_c); press Enter] 0 demo_state
  = select_loop true 0 0 [press Enter] 0 demo_state.
Proof.
  destruct (ctrl_c_ignored_in_selection true 0 0 [press Enter] 0 demo_state eq_refl)
    as (_ & W & _).
  exact W.
Defined.

(** C4: the terminal is released on two exit paths only.  Ctrl-C at
    any point of the name entry exits with status 0 after leaving the
    alternate screen and disabling raw mode, and every run of [main] that
    returns ends with both restored.  But a failed read during the name
    entry panics without the release, and starting a generator with
    [exec] (here [dune] for OCaml, with the hash keys (0, 0)) replaces the
    process without it: the terminal stays in raw mode on the alternate
    screen. *)
Theorem terminal_release_paths (oc : bool) (k0 k1 : Z) (keys : list KeyEvent)
    (buf : rstring) rest (s : St) :
  io_budget s = None -> name_edits keys [] = Some buf ->
  (exists s', main oc k0 k1 (map (fun k => Read (Key k)) keys ++ Read (Key ctrl_c) :: rest) s
              = Halted (HExit 0) s' /\ raw s' = false /\ alt s' = false) /\
  (forall ins s', main oc k0 k1 ins s = Done tt s' -> raw s' = false /\ alt s' = false) /\
  (exists s', main oc k0 k1 (map (fun k => Read (Key k)) keys ++ ReadError :: rest) s
              = Halted HPanic s' /\ raw s' = true /\ alt s' = true) /\
  (let o := main true 0 0 [key_d; press Enter; press Down; press Enter] demo_state in
   outcome_halt o = Some (HExec (lit "dune") [lit "init"; lit "project"; lit "d"]) /\
   raw (final_state o) = true /\ alt (final_state o) = true).
Proof.
  intros H He.
  destruct (main_name_entry oc k0 k1 keys buf rest s H He) as [Hc Hp].
  split; [exact Hc|].
  split.
  - intros ins s' Hm. destruct (main_returns oc k0 k1 ins s s' Hm) as [Hr [Ha _]].
    split; assumption.
  - split; [exact Hp|]. vm_compute. repeat split.
Qed.

Lemma terminal_release_paths_witness :
  exists s', main true 0 0 [key_d; Read (Key ctrl_c)] demo_state = Halted (HExit 0) s' /\
             raw s' = false /\ alt s' = false.
Proof.
  destruct (terminal_release_paths true 0 0 [typed (N_of_ascii "d"%char) NONE] [N_of_ascii "d"%char]
              [] demo_state eq_refl eq_refl) as [W _].
  exact W.
Defined.

(** C5 (counterexample): in a session that chooses web (the first entry
    with the hash keys (0, 0)) the project directory is created and the
    stub file written while raw mode is on and the alternate screen is
    active; raw mode is disabled only afterwards. *)
Lemma dispatch_runs_in_raw_mode :
  let o := main true 0 0 [key_d; press Enter; press Enter] demo_state in
  outcome_halt o = None /\
  nth_error (trace (final_state o)) 2
  = Some {| act := ACreateDir [lit "home"; lit "d"]; raw_then := true; alt_then := true |} /\
  nth_error (trace (final_state o)) 7
  = Some {| act := AWriteAll [lit "home"; lit "d"; lit "index.html"] stub_contents;
            raw_then := true; alt_then := true |} /\
  nth_error (trace (final_state o)) 9
  = Some {| act := ADisableRawMode; raw_then := true; alt_then := false |}.
Proof. vm_compute. repeat split. Qed.

(** C5 (amended): in every run of [main] that returns, the terminal is
    restored only after the dispatch: the trace starts with entering the
    alternate screen and enabling raw mode, every action in between (the
    whole dispatch included) is taken in raw mode on the alternate
    screen, and it ends with leaving the alternate screen, disabling raw
    mode and printing "Done!". *)
Theorem restore_after_dispatch (oc : bool) (k0 k1 : Z) ins (s s' : St) :
  main oc k0 k1 ins s = Done tt s' ->
  raw s' = false /\ alt s' = false /\
  exists mid,
    trace s' = trace s ++
      [{| act := AEnterAlternateScreen; raw_then := raw s; alt_then := alt s |};
       {| act := AEnableRawMode; raw_then := raw s; alt_then := true |}] ++ mid ++
      [{| act := ALeaveAlternateScreen; raw_then := true; alt_then := true |};
       {| act := ADisableRawMode; raw_then := true; alt_then := false |};
       {| act := APrintln (lit "Done!"); raw_then := false; alt_then := false |}] /\
    Forall modes_on mid.
Proof. apply main_returns. Qed.

Lemma restore_after_dispatch_witness :
  exists s', main true 0 0 [key_d; press Enter; press Enter] demo_state = Done tt s' /\
             raw s' = false /\ alt s' = false.
Proof.
  exists (final_state (main true 0 0 [key_d; press Enter; press Enter] demo_state)).
  assert (Hm : main true 0 0 [key_d; press Enter; press Enter] demo_state
               = Done tt (final_state (main true 0 0 [key_d; press Enter; press Enter] demo_state)))
    by (vm_compute; reflexivity).
  destruct (restore_after_dispatch true 0 0 _ _ _ Hm) as (Hr & Ha & _).
  split; [exact Hm|split; assumption].
Defined.

(** C6: Backspace on the empty name leaves it empty, and the loop goes
    on with the next event as if the key had not been pressed. *)
Theorem backspace_empty_noop (m : N) ins (s : St) :
  io_budget s = None ->
  name_key {| code := Backspace; modifiers := m |} [] = NContinue [] /\
  name_loop (Read (Key {| code := Backspace; modifiers := m |}) :: ins) [] s = name_loop ins [] s.
Proof.
  intros H. split; [reflexivity|].
  apply name_loop_continue; [exact H|reflexivity].
Qed.

Lemma backspace_empty_noop_witness :
  name_loop [Read (Key {| code := Backspace; modifiers := NONE |}); press Enter] [] demo_state
  = name_loop [press Enter] [] demo_state.
Proof.
  destruct (backspace_empty_noop NONE [press Enter] demo_state eq_refl) as [_ W].
  exact W.
Defined.

(** C7: typing characters (without modifier or with Shift) and then
    Enter submits exactly the typed characters, in order; so "abc" then
    Enter submits "abc". *)
Theorem typed_name_submitted (keys : list (rchar * N)) (m : N) rest (s : St) :
  io_budget s = None -> Forall (fun p => snd p = NONE \/ snd p = SHIFT) keys ->
  get_project_name (map (fun p => Read (Key (typed (fst p) (snd p)))) keys ++
                    Read (Key {| code := Enter; modifiers := m |}) :: rest) s
  = Done (Ok (map fst keys), rest) s.
Proof.
  intros H Hk. rewrite get_project_name_typed by assumption. reflexivity.
Qed.

Lemma typed_name_submitted_witness :
  get_project_name [Read (Key (typed (N_of_ascii "a"%char) NONE));
                    Read (Key (typed (N_of_ascii "b"%char) NONE));
                    Read (Key (typed (N_of_ascii "c"%char) NONE)); press Enter] demo_state
  = Done (Ok (lit "abc"), []) demo_state.
Proof.
  exact (typed_name_submitted
           [(N_of_ascii "a"%char, NONE); (N_of_ascii "b"%char, NONE); (N_of_ascii "c"%char, NONE)]
           NONE [] demo_state eq_refl
           ltac:(repeat (apply Forall_cons; [left; reflexivity|]); apply Forall_nil)).
Defined.

(** C8 (counterexample): the menu is listed in the iteration order of
    the hash map, which depends on its hash keys.  With the keys (0, 0)
    it is web, ocaml, haskell, rust, cpp, and Down, Down, Enter selects
    haskell; with the keys (1, 0) it is ocaml, web, rust, haskell, cpp. *)
Lemma menu_order_depends_on_hash_keys :
  map fst (LANGUAGES_iter 0 0) = [Web; Ocaml; Haskell; Rust; Cpp] /\
  map fst (LANGUAGES_iter 1 0) = [Ocaml; Web; Rust; Haskell; Cpp] /\
  get_selected_language true 0 0 [press Down; press Down; press Enter] demo_state
  = Done (Ok Haskell, []) demo_state.
Proof. vm_compute. repeat split. Qed.

(** C8 (amended): for any hash keys the menu lists the five languages
    once each, in the iteration order of the hash map, and Down, Down,
    Enter selects the third language of that order. *)
Theorem menu_order_permutation (oc : bool) (k0 k1 : Z) (s : St) :
  io_budget s = None ->
  Permutation (map fst (LANGUAGES_iter k0 k1)) [Rust; Web; Cpp; Ocaml; Haskell] /\
  exists l, nth_error (map fst (LANGUAGES_iter k0 k1)) 2 = Some l /\
    get_selected_language oc k0 k1 [press Down; press Down; press Enter] s = Done (Ok l, []) s.
Proof.
  intros H. split.
  - change [Rust; Web; Cpp; Ocaml; Haskell] with (map fst LANGUAGES_entries).
    apply Permutation_map, LANGUAGES_iter_perm.
  - destruct (nth_error (LANGUAGES_iter k0 k1) 2) as [e|] eqn:E.
    + exists (fst e). split; [rewrite nth_error_map, E; reflexivity|].
      pose proof (select_loop_downs oc k0 k1 2 [] 0 s H ltac:(lia)
                    ltac:(unfold usize_modulus; lia)) as L.
      change (0 + Z.of_nat 2) with (Z.of_nat 2) in L.
      change [press Down; press Down; press Enter]
        with (repeat (press Down) 2 ++ [press Enter]).
      rewrite (get_selected_language_run _ _ _ _ _ _ _ H L).
      rewrite iter_nth_nth_error, E. reflexivity.
    + exfalso. apply nth_error_None in E. rewrite LANGUAGES_iter_length in E. lia.
Qed.

Lemma menu_order_permutation_witness :
  exists l, nth_error (map fst (LANGUAGES_iter 1 0)) 2 = Some l /\
    get_selected_language true 1 0 [press Down; press Down; press Enter] demo_state
    = Done (Ok l, []) demo_state.
Proof.
  destruct (menu_order_permutation true 1 0 demo_state eq_refl) as [_ W].
  exact W.
Defined.

(** C9: with the project name "demo" and the language web, the dispatch
    creates the directory demo, writes the bytes "test" into
    demo/index.html and runs no external program: its actions are only
    the directory creations, the changes of directory, the file
    creation and the write. *)
Theorem dispatch_web_demo k0 k1 (s : St) :
  is_dir (fs s) (cwd s) = true ->
  lookup (fs s) (cwd s ++ [lit "demo"]) = None ->
  lookup (fs s) (cwd s ++ [lit "demo"; lit "index.html"]) <> Some Dir ->
  exists s' new,
    dispatch k0 k1 (lit "demo") Web s = Done tt s' /\
    trace s' = trace s ++ new /\
    map act new =
      [ACreateDir (cwd s ++ [lit "demo"]); ASetCurrentDir (cwd s ++ [lit "demo"]);
       ACreateDirAll (cwd s ++ [lit "demo"]); ASetCurrentDir (cwd s ++ [lit "demo"]);
       ACreateFile (cwd s ++ [lit "demo"; lit "index.html"]);
       AWriteAll (cwd s ++ [lit "demo"; lit "index.html"]) stub_contents] /\
    lookup (fs s') (cwd s ++ [lit "demo"]) = Some Dir /\
    lookup (fs s') (cwd s ++ [lit "demo"; lit "index.html"]) = Some (File stub_contents).
Proof.
  intros Hc Hd Hf.
  set (d := cwd s ++ [lit "demo"]) in *.
  assert (Hfd : cwd s ++ [lit "demo"; lit "index.html"] = d ++ [lit "index.html"])
    by (subst d; rewrite <- app_assoc; reflexivity).
  rewrite Hfd in Hf |- *. set (f := d ++ [lit "index.html"]) in *.
  assert (Hdf : f <> d).
  { subst f. intros E. apply (f_equal (@List.length _)) in E.
    rewrite length_app in E. cbn in E. lia. }
  do 2 eexists. split.
  { unfold dispatch.
    erewrite bind_Done; [|reflexivity]. cbv beta zeta.
    rewrite LANGUAGES_get_spec.
    erewrite bind_Done; [|reflexivity].
    change (lang_entry Web) with (NotExists [lit "index.html"]). cbv beta iota.
    change (name_path (lit "demo")) with [lit "demo"]. fold d.
    erewrite bind_Done; [|apply create_dir_new; simpl_st;
       [exact Hd|subst d; rewrite removelast_last; exact Hc]].
    erewrite bind_Done; [|reflexivity]. cbv beta. simpl_st.
    erewrite bind_Done; [|apply set_current_dir_ok; simpl_st;
       unfold is_dir; rewrite lookup_update_same by apply snoc_not_nil; reflexivity].
    erewrite bind_Done; [|reflexivity]. cbv beta. simpl_st.
    change (vec_pop [lit "index.html"]) with (Some (lit "index.html"), @nil rstring).
    cbv beta iota.
    erewrite bind_Done; [|reflexivity]. cbv beta.
    erewrite bind_Done; [|apply create_dir_all_here].
    erewrite bind_Done; [|reflexivity]. cbv beta. simpl_st. rewrite !app_nil_r.
    erewrite bind_Done; [|apply set_current_dir_ok; simpl_st;
       unfold is_dir; rewrite lookup_update_same by apply snoc_not_nil; reflexivity].
    erewrite bind_Done; [|reflexivity]. cbv beta. simpl_st.
    erewrite bind_Done; [|apply file_create_new; simpl_st;
       [rewrite lookup_update_other by exact Hdf; exact Hf
       |subst f; rewrite removelast_last; unfold is_dir;
        rewrite lookup_update_same by apply snoc_not_nil; reflexivity]].
    erewrite bind_Done; [|reflexivity]. cbv beta. simpl_st.
    erewrite bind_Done; [|apply (write_all_file _ []); simpl_st;
       apply lookup_update_same; apply snoc_not_nil].
    simpl_st. reflexivity. }
  simpl_st. split; [rewrite <- !app_assoc; reflexivity|].
  split; [reflexivity|].
  split.
  - rewrite !lookup_update_other by (apply not_eq_sym; exact Hdf).
    apply lookup_update_same, snoc_not_nil.
  - apply lookup_update_same, snoc_not_nil.
Qed.

Lemma dispatch_web_demo_witness :
  exists s' new,
    dispatch 0 0 (lit "demo") Web demo_state = Done tt s' /\
    trace s' = trace demo_state ++ new /\
    map act new =
      [ACreateDir [lit "home"; lit "demo"]; ASetCurrentDir [lit "home"; lit "demo"];
       ACreateDirAll [lit "home"; lit "demo"]; ASetCurrentDir [lit "home"; lit "demo"];
       ACreateFile [lit "home"; lit "demo"; lit "index.html"];
       AWriteAll [lit "home"; lit "demo"; lit "index.html"] stub_contents] /\
    lookup (fs s') [lit "home"; lit "demo"] = Some Dir /\
    lookup (fs s') [lit "home"; lit "demo"; lit "index.html"] = Some (File stub_contents).
Proof.
  apply (dispatch_web_demo 0 0 demo_state).
  - vm_compute. reflexivity.
  - vm_compute. reflexivity.
  - vm_compute. discriminate.
Defined.

(** C10: an event other than a key press (a resize, for instance) ends
    the name entry: the name typed so far is returned as submitted,
    without Enter. *)
Theorem non_key_event_submits (keys : list (rchar * N)) (e : Event) rest (s : St) :
  io_budget s = None -> Forall (fun p => snd p = NONE \/ snd p = SHIFT) keys ->
  (forall k, e <> Key k) ->
  get_project_name (map (fun p => Read (Key (typed (fst p) (snd p)))) keys ++ Read e :: rest) s
  = Done (Ok (map fst keys), rest) s.
Proof.
  intros H Hk He. rewrite get_project_name_typed by assumption.
  destruct e as [k| |]; [exfalso; exact (He k eq_refl)|reflexivity|reflexivity].
Qed.

Lemma non_key_event_submits_witness :
  get_project_name [key_d; Read (Resize 80 24)] demo_state
  = Done (Ok (lit "d"), []) demo_state.
Proof.
  exact (non_key_event_submits [(N_of_ascii "d"%char, NONE)] (Resize 80 24) [] demo_state
           eq_refl ltac:(repeat (apply Forall_cons; [left; reflexivity|]); apply Forall_nil)
           (fun k E => match E in _ = x return match x with Resize _ _ => True | _ => False end
                       with eq_refl => I end)).
Defined.

(* ================================================================== *)
(** * Further properties of the program *)

(** ** Helper lemmas *)

Lemma with_budget_twice b b' (s : St) : with_budget b (with_budget b' s) = with_budget b s.
Proof. reflexivity. Qed.

Lemma with_budget_same (s : St) : with_budget (io_budget s) s = s.
Proof. destruct s; reflexivity. Qed.

Lemma Quiet_ret {A} (a : A) : Quiet (ret a).
Proof. intros s. apply with_budget_same. Qed.

Lemma Quiet_halt {A} h : Quiet (@halt_with A h).
Proof. intros s. apply with_budget_same. Qed.

Lemma Quiet_unwrap {A E} (r : result A E) : Quiet (unwrap r).
Proof. intros s. destruct r; apply with_budget_same. Qed.

Lemma Quiet_screen_op : Quiet screen_op.
Proof.
  intros s. unfold screen_op, term_op.
  destruct (io_budget s) as [[|n]|] eqn:E; cbn [final_state];
    rewrite ?with_budget_twice, ?E; rewrite <- E; apply with_budget_same.
Qed.

Lemma Quiet_bind {A B} (m : M A) (k : A -> M B) :
  Quiet m -> (forall a, Quiet (k a)) -> Quiet (bind m k).
Proof.
  intros Hm Hk s. specialize (Hm s). unfold bind.
  destruct (m s) as [a s1|h s1]; cbn [final_state] in *; [|exact Hm].
  rewrite <- (with_budget_twice (io_budget s) (io_budget s1)), Hk. exact Hm.
Qed.

Lemma Quiet_bindR {A B} (m : M (result A MyError)) (k : A -> M (result B MyError)) :
  Quiet m -> (forall a, Quiet (k a)) -> Quiet (bindR m k).
Proof.
  intros Hm Hk. apply Quiet_bind; [exact Hm|]. intros [a|e]; [apply Hk|apply Quiet_ret].
Qed.

Create HintDb quiet.

#[local] Hint Resolve Quiet_ret Quiet_halt Quiet_unwrap Quiet_screen_op : quiet.

Ltac quiet :=
  repeat first [ apply Quiet_bindR; [|intros ?]
               | apply Quiet_bind; [|intros ?]
               | match goal with |- Quiet (match ?x with _ => _ end) => destruct x end
               | solve [eauto with quiet] ].

Lemma Quiet_clear_screen : Quiet clear_screen.
Proof. unfold clear_screen. quiet. Qed.

#[local] Hint Resolve Quiet_clear_screen : quiet.

Lemma Quiet_name_loop ins : forall buf, Quiet (name_loop ins buf).
Proof.
  induction ins as [|i ins IH]; intros buf; cbn [name_loop]; [apply Quiet_halt|].
  destruct i as [[key| |]|]; try apply Quiet_ret; try apply Quiet_halt.
  destruct (name_key key buf); [apply Quiet_ret|]. quiet; apply IH.
Qed.

Lemma Quiet_get_project_name ins : Quiet (get_project_name ins).
Proof. unfold get_project_name. quiet. apply Quiet_name_loop. Qed.

Lemma Quiet_queue_each {A} (l : list A) : Quiet (queue_each l).
Proof. induction l; cbn [queue_each]; quiet; assumption. Qed.

Lemma Quiet_select_loop oc k0 k1 ins : forall sel, Quiet (select_loop oc k0 k1 ins sel).
Proof.
  induction ins as [|i ins IH]; intros sel; cbn [select_loop];
    unfold print_selection; quiet; try apply Quiet_queue_each; try apply IH.
Qed.

Lemma Quiet_get_selected_language oc k0 k1 ins : Quiet (get_selected_language oc k0 k1 ins).
Proof.
  unfold get_selected_language. quiet; try apply Quiet_select_loop.
  unfold unwrap_opt. intros s. destruct (iter_nth _ _); apply with_budget_same.
Qed.

Lemma Quiet_fields {A} (m : M A) (s : St) :
  Quiet m ->
  let s' := final_state (m s) in
  fs s' = fs s /\ cwd s' = cwd s /\ raw s' = raw s /\ alt s' = alt s /\ trace s' = trace s.
Proof.
  intros H. pose proof (H s) as Hs. cbv zeta.
  set (s' := final_state (m s)) in *. clearbody s'.
  repeat split; rewrite <- Hs; reflexivity.
Qed.

Lemma select_loop_read oc k0 k1 (e : Event) ins (sel : Z) (s : St) :
  io_budget s = None ->
  select_loop oc k0 k1 (Read e :: ins) sel s =
  match e with
  | Key key =>
      match select_key oc key.(code) sel with
      | SMove v => select_loop oc k0 k1 ins v s
      | SBreak => Done (Ok sel, ins) s
      | SPanic => Halted HPanic s
      end
  | _ => select_loop oc k0 k1 ins sel s
  end.
Proof.
  intros H. cbn [select_loop].
  rewrite (bind_Done _ _ _ _ _ (clear_screen_ok s H)).
  rewrite (bind_Done _ _ _ _ _ (print_selection_ok k0 k1 sel s H)).
  rewrite (bind_Done _ _ _ _ _ (eq_refl : unwrap (Ok tt) s = Done tt s)).
  destruct e as [key| |]; [destruct (select_key oc (code key) sel)|..]; reflexivity.
Qed.

Lemma select_loop_downs_prefix oc k0 k1 (n : nat) :
  forall rest (i : Z) (s : St),
  io_budget s = None -> 0 <= i -> i + Z.of_nat n < usize_modulus ->
  select_loop oc k0 k1 (repeat (press Down) n ++ rest) i s
  = select_loop oc k0 k1 rest (i + Z.of_nat n) s.
Proof.
  induction n as [|n IH]; intros rest i s H Hi Hn; cbn [repeat app].
  - rewrite Z.add_0_r. reflexivity.
  - unfold press at 1. rewrite select_loop_key by exact H. cbn [code].
    rewrite select_key_down by lia.
    rewrite IH by (exact H || lia). f_equal. lia.
Qed.

Lemma select_loop_ups_prefix oc k0 k1 (m : nat) :
  forall rest (i : Z) (s : St),
  io_budget s = None -> Z.of_nat m <= i ->
  select_loop oc k0 k1 (repeat (press Up) m ++ rest) i s
  = select_loop oc k0 k1 rest (i - Z.of_nat m) s.
Proof.
  induction m as [|m IH]; intros rest i s H Hi; cbn [repeat app].
  - rewrite Z.sub_0_r. reflexivity.
  - unfold press at 1. rewrite select_loop_key by exact H. cbn [code].
    rewrite select_key_up_pos by lia.
    rewrite IH by (exact H || lia). f_equal. lia.
Qed.






Lemma create_dir_exists (p : PathBuf) (nd : node) (s : St) :
  lookup (fs s) (resolve s p) = Some nd ->
  create_dir p s = Done (Err Io) (log (ACreateDir (resolve s p)) s).
Proof. intros H. unfold create_dir. cbv zeta. cbn [fs log]. rewrite H. reflexivity. Qed.



Lemma main_session_run oc k0 k1 (keys : list KeyEvent) (buf : rstring) (j : nat) e rest (s : St) :
  io_budget s = None -> name_edits keys [] = Some buf ->
  nth_error (LANGUAGES_iter k0 k1) j = Some e ->
  exists s2,
    main oc k0 k1 (map (fun k => Read (Key k)) keys ++ press Enter ::
                   repeat (press Down) j ++ press Enter :: rest) s
    = bind (dispatch k0 k1 buf (fst e)) (fun _ => teardown) s2 /\
    raw s2 = true /\ alt s2 = true /\ io_budget s2 = None /\
    fs s2 = fs s /\ cwd s2 = cwd s /\ installed s2 = installed s /\
    map act (trace s2) = map act (trace s) ++ [AEnterAlternateScreen; AEnableRawMode].
Proof.
  intros H He Ej.
  assert (Hj : (j < 5)%nat)
    by (rewrite <- (LANGUAGES_iter_length k0 k1); apply nth_error_Some; congruence).
  eexists. split.
  { unfold main, enter_alternate_screen, enable_raw_mode. do 4 run_op H.
    erewrite bind_Done;
      [|rewrite (get_project_name_prefix _ _ buf); [reflexivity|cbn; exact H|exact He]].
    cbv beta iota.
    erewrite bind_Done; [|reflexivity]. cbv beta.
    erewrite bind_Done.
    2:{ pose proof (select_loop_downs oc k0 k1 j rest 0) as L.
        erewrite get_selected_language_run; [| |apply L]; cbn [io_budget with_terminal log];
          try exact H; try lia; [|unfold usize_modulus; lia].
        rewrite Z.add_0_l, iter_nth_nth_error, Ej. reflexivity. }
    cbv beta iota.
    erewrite bind_Done; [|reflexivity]. cbv beta.
    reflexivity. }
  destruct s as [r a b c f i t]; cbn in H |- *; subst b.
  repeat split. rewrite !map_app, <- !app_assoc. reflexivity.
Qed.

Lemma selection_entries_spec (sel : Z) (l : list (ProjectLanguage * CommandExists)) :
  forall i, 0 <= i -> i + Z.of_nat (List.length l) < 2 ^ 16 ->
  exists lines, selection_entries sel i l = Some lines /\
    map row lines = map (fun k => i + Z.of_nat k + 1) (seq 0 (List.length l)) /\
    filter yellow lines
    = cursor_line sel (if i <=? sel then nth_error l (Z.to_nat (sel - i)) else None).
Proof.
  induction l as [|[lang c] l IH]; intros i Hi Hl.
  - exists []. split; [reflexivity|]. split; [reflexivity|].
    destruct (i <=? sel); [destruct (Z.to_nat (sel - i))|]; reflexivity.
  - cbn [List.length] in Hl.
    destruct (IH (i + 1) ltac:(lia) ltac:(lia)) as (lines & E & Hr & Hy).
    cbn [selection_entries]. unfold selection_entry.
    replace (i + 1 <? 2 ^ 16) with true by (symmetry; apply Z.ltb_lt; lia).
    rewrite E. cbn [option_map].
    destruct (i =? sel) eqn:Es; eexists; (split; [reflexivity|]); cbn [map row List.length seq].
    + apply Z.eqb_eq in Es. subst sel.
      split.
      * rewrite <- seq_shift, map_map, Hr. f_equal; [lia|apply map_ext; intros; lia].
      * cbn [filter yellow]. rewrite Hy.
        replace (i + 1 <=? i) with false by (symmetry; apply Z.leb_gt; lia).
        rewrite Z.leb_refl, Z.sub_diag. reflexivity.
    + apply Z.eqb_neq in Es.
      split.
      * rewrite <- seq_shift, map_map, Hr. f_equal; [lia|apply map_ext; intros; lia].
      * cbn [filter yellow]. rewrite Hy.
        destruct (Z.le_gt_cases (i + 1) sel) as [Hle|Hgt].
        -- replace (i + 1 <=? sel) with true by (symmetry; apply Z.leb_le; lia).
           replace (i <=? sel) with true by (symmetry; apply Z.leb_le; lia).
           replace (Z.to_nat (sel - i)) with (S (Z.to_nat (sel - (i + 1)))) by lia.
           reflexivity.
        -- replace (i + 1 <=? sel) with false by (symmetry; apply Z.leb_gt; lia).
           replace (i <=? sel) with false by (symmetry; apply Z.leb_gt; lia).
           reflexivity.
Qed.

(** ** Properties *)

(** Reading the project name ([get_project_name]) and the language ([get_selected_language]) leave the file system, the working directory, the terminal modes and the action log as they were, however they end. *)
Theorem input_loops_touch_nothing oc k0 k1 ins (s : St) :
  (let s' := final_state (get_project_name ins s) in
   fs s' = fs s /\ cwd s' = cwd s /\ raw s' = raw s /\ alt s' = alt s /\ trace s' = trace s) /\
  (let s' := final_state (get_selected_language oc k0 k1 ins s) in
   fs s' = fs s /\ cwd s' = cwd s /\ raw s' = raw s /\ alt s' = alt s /\ trace s' = trace s).
Proof.
  split; apply Quiet_fields; [apply Quiet_get_project_name|apply Quiet_get_selected_language].
Qed.

(** In the selection loop, an event that is not a key press of Up, Down or Enter leaves the selection unchanged. *)
Theorem select_ignores_other_events oc k0 k1 (e : Event) ins (sel : Z) (s : St) :
  io_budget s = None ->
  (forall key, e = Key key -> code key <> Up /\ code key <> Down /\ code key <> Enter) ->
  select_loop oc k0 k1 (Read e :: ins) sel s = select_loop oc k0 k1 ins sel s.
Proof.
  intros H He. rewrite select_loop_read by exact H.
  destruct e as [key| |]; try reflexivity.
  destruct (He key eq_refl) as (H1 & H2 & H3).
  unfold select_key. destruct (code key); try contradiction; reflexivity.
Qed.

Lemma select_ignores_other_events_witness :
  select_loop true 0 0 [Read (Resize 80 24); press Enter] 0 demo_state
  = select_loop true 0 0 [press Enter] 0 demo_state.
Proof.
  apply (select_ignores_other_events true 0 0 (Resize 80 24)); [reflexivity|].
  intros key E. discriminate E.
Defined.

(** In the selection menu, [n] Down presses, then [m <= n] Up presses, then Enter select the entry at position [n - m] of the iteration order, when that position is within the table. *)
Theorem select_net_moves oc k0 k1 (n m : nat) (s : St) :
  io_budget s = None -> Z.of_nat n < usize_modulus -> (m <= n)%nat -> (n - m < 5)%nat ->
  exists e, nth_error (LANGUAGES_iter k0 k1) (n - m) = Some e /\
    get_selected_language oc k0 k1 (repeat (press Down) n ++ repeat (press Up) m ++ [press Enter]) s
    = Done (Ok (fst e), []) s.
Proof.
  intros H Hn Hmn Hlt.
  destruct (nth_error (LANGUAGES_iter k0 k1) (n - m)) as [e|] eqn:E.
  2:{ apply nth_error_None in E. rewrite LANGUAGES_iter_length in E. lia. }
  exists e. split; [reflexivity|].
  assert (L : select_loop oc k0 k1 (repeat (press Down) n ++ repeat (press Up) m ++ [press Enter]) 0 s
              = Done (Ok (Z.of_nat (n - m)), []) s).
  { rewrite select_loop_downs_prefix by (exact H || lia).
    rewrite select_loop_ups_prefix by (exact H || lia).
    rewrite select_loop_enter by exact H. do 3 f_equal. lia. }
  rewrite (get_selected_language_run _ _ _ _ _ _ _ H L).
  rewrite iter_nth_nth_error, E. reflexivity.
Qed.

Lemma select_net_moves_witness :
  exists e, nth_error (LANGUAGES_iter 0 0) 4 = Some e /\
    get_selected_language true 0 0 (repeat (press Down) 6 ++ repeat (press Up) 2 ++ [press Enter])
      demo_state = Done (Ok (fst e), []) demo_state.
Proof.
  exact (select_net_moves true 0 0 6 2 demo_state eq_refl
           ltac:(unfold usize_modulus; lia) ltac:(lia) ltac:(lia)).
Defined.

(** In the name entry, Backspace removes the last character of the name typed so far. *)
Theorem name_backspace_removes_last (m : N) (c : rchar) ins (buf : rstring) (s : St) :
  io_budget s = None ->
  name_loop (Read (Key {| code := Backspace; modifiers := m |}) :: ins) (buf ++ [c]) s
  = name_loop ins buf s.
Proof.
  intros H. apply name_loop_continue; [exact H|].
  unfold name_key; cbn [code]. rewrite removelast_last. reflexivity.
Qed.

Lemma name_backspace_removes_last_witness :
  name_loop [Read (Key {| code := Backspace; modifiers := NONE |}); press Enter] (lit "ab") demo_state
  = name_loop [press Enter] (lit "a") demo_state.
Proof. exact (name_backspace_removes_last NONE (N_of_ascii "b"%char) [press Enter] (lit "a") demo_state eq_refl). Defined.

(** In the name entry, the keys Up, Down and the keys the program does not handle leave the name unchanged. *)
Theorem name_ignores_other_keys (k : KeyCode) (m : N) ins (buf : rstring) (s : St) :
  io_budget s = None -> k = Up \/ k = Down \/ k = OtherKey ->
  name_loop (Read (Key {| code := k; modifiers := m |}) :: ins) buf s = name_loop ins buf s.
Proof.
  intros H Hk. apply name_loop_continue; [exact H|].
  destruct Hk as [-> | [-> | ->]]; reflexivity.
Qed.

Lemma name_ignores_other_keys_witness :
  name_loop [press Up; press Enter] (lit "a") demo_state = name_loop [press Enter] (lit "a") demo_state.
Proof. exact (name_ignores_other_keys Up NONE [press Enter] (lit "a") demo_state eq_refl (or_introl eq_refl)). Defined.

(** In the name entry, typing a character appends it to the name, unless it is Ctrl-C. *)
Theorem name_char_inserted (c : rchar) (m : N) ins (buf : rstring) (s : St) :
  io_budget s = None -> c <> N_of_ascii "c"%char \/ m <> CONTROL ->
  name_loop (Read (Key (typed c m)) :: ins) buf s = name_loop ins (buf ++ [c]) s.
Proof.
  intros H Hc. apply name_loop_continue; [exact H|].
  unfold name_key, typed; cbn [code modifiers].
  destruct Hc as [Hc|Hm].
  - apply N.eqb_neq in Hc. rewrite Hc. reflexivity.
  - apply N.eqb_neq in Hm. rewrite Hm, andb_false_r. reflexivity.
Qed.

Lemma name_char_inserted_witness :
  name_loop [Read (Key (typed (N_of_ascii "c"%char) 3%N)); press Enter] (lit "ab") demo_state
  = name_loop [press Enter] (lit "ab" ++ [N_of_ascii "c"%char]) demo_state.
Proof.
  apply (name_char_inserted (N_of_ascii "c"%char) 3%N [press Enter] (lit "ab") demo_state).
  - reflexivity.
  - right. unfold CONTROL. discriminate.
Defined.

(** When entering the alternate screen fails, [main] panics at once, with nothing changed. *)
Theorem main_setup_failure_panics oc k0 k1 ins (s : St) :
  io_budget s = Some O -> main oc k0 k1 ins s = Halted HPanic s.
Proof.
  intros H. unfold main, bind at 1, enter_alternate_screen, term_op. rewrite H. reflexivity.
Qed.

Lemma main_setup_failure_panics_witness :
  main true 0 0 [key_d; press Enter] (with_budget (Some O) demo_state)
  = Halted HPanic (with_budget (Some O) demo_state).
Proof. exact (main_setup_failure_panics true 0 0 [key_d; press Enter] (with_budget (Some O) demo_state) eq_refl). Defined.

(** When the first clear of the screen in [get_project_name] fails, [main] panics with the terminal left in raw mode on the alternate screen and the file system untouched. *)
Theorem main_name_entry_io_error_panics oc k0 k1 ins (s : St) :
  io_budget s = Some 2%nat ->
  exists s', main oc k0 k1 ins s = Halted HPanic s' /\ raw s' = true /\ alt s' = true /\
             fs s' = fs s /\ cwd s' = cwd s.
Proof.
  intros H. destruct s as [r a b c f i t]; cbn in H; subst b.
  eexists. split; [reflexivity|]. repeat split.
Qed.

Lemma main_name_entry_io_error_panics_witness :
  exists s', main true 0 0 [key_d; press Enter] (with_budget (Some 2%nat) demo_state)
             = Halted HPanic s' /\ raw s' = true /\ alt s' = true /\
             fs s' = fs demo_state /\ cwd s' = cwd demo_state.
Proof. exact (main_name_entry_io_error_panics true 0 0 [key_d; press Enter] (with_budget (Some 2%nat) demo_state) eq_refl). Defined.





(** For Web, C++ and Haskell, the dispatch panics when the project path already exists, before changing the file system or the working directory. *)
Theorem dispatch_existing_dir_panics k0 k1 (n : rstring) (l : ProjectLanguage) (nd : node) (s : St) :
  l = Web \/ l = Cpp \/ l = Haskell ->
  lookup (fs s) (cwd s ++ name_path n) = Some nd ->
  exists s', dispatch k0 k1 n l s = Halted HPanic s' /\ fs s' = fs s /\ cwd s' = cwd s.
Proof.
  intros Hl He. eexists. split.
  { unfold dispatch.
    erewrite bind_Done; [|reflexivity]. cbv beta zeta.
    rewrite LANGUAGES_get_spec.
    erewrite bind_Done; [|reflexivity].
    destruct Hl as [-> | [-> | ->]].
    - change (lang_entry Web) with (NotExists [lit "index.html"]). cbv beta iota.
      erewrite bind_Done; [|apply (create_dir_exists _ nd); exact He]. reflexivity.
    - change (lang_entry Cpp) with (NotExists [lit "src"; lit "main.cpp"]). cbv beta iota.
      erewrite bind_Done; [|apply (create_dir_exists _ nd); exact He]. reflexivity.
    - change (lang_entry Haskell) with (Exists
        {| command := lit "cabal"; args := [lit "init"]; automatic_new_folder := false |}).
      cbn [automatic_new_folder].
      erewrite bind_Done; [|apply (create_dir_exists _ nd); exact He]. reflexivity. }
  split; reflexivity.
Qed.

Lemma dispatch_existing_dir_panics_witness :
  exists s', dispatch 0 0 [] Web demo_state = Halted HPanic s' /\
             fs s' = fs demo_state /\ cwd s' = cwd demo_state.
Proof. exact (dispatch_existing_dir_panics 0 0 [] Web Dir demo_state (or_introl eq_refl) eq_refl). Defined.

(** [exit_program_gracefully] leaves the alternate screen, disables raw mode, prints [Done!] and exits with status 0. *)
Theorem exit_gracefully_restores {A} (s : St) :
  io_budget s = None ->
  exists s', @exit_program_gracefully A s = Halted (HExit 0) s' /\
    raw s' = false /\ alt s' = false /\ fs s' = fs s /\ cwd s' = cwd s /\
    trace s' = trace s ++
      [{| act := ALeaveAlternateScreen; raw_then := raw s; alt_then := alt s |};
       {| act := ADisableRawMode; raw_then := raw s; alt_then := false |};
       {| act := APrintln (lit "Done!"); raw_then := false; alt_then := false |}].
Proof.
  intros H. unfold exit_program_gracefully, leave_alternate_screen, disable_raw_mode.
  eexists. split.
  { do 5 run_op H. reflexivity. }
  destruct s as [r a b c f i t]; cbn in H |- *; subst b.
  repeat split. rewrite <- !app_assoc. reflexivity.
Qed.

Lemma exit_gracefully_restores_witness :
  exists s', @exit_program_gracefully unit demo_state = Halted (HExit 0) s' /\
    raw s' = false /\ alt s' = false /\ fs s' = fs demo_state /\ cwd s' = cwd demo_state /\
    trace s' = trace demo_state ++
      [{| act := ALeaveAlternateScreen; raw_then := false; alt_then := false |};
       {| act := ADisableRawMode; raw_then := false; alt_then := false |};
       {| act := APrintln (lit "Done!"); raw_then := false; alt_then := false |}].
Proof. exact (exit_gracefully_restores demo_state eq_refl). Defined.



(** The selection screen draws the five languages on rows 1 to 5 and highlights exactly the selected one; a selection past the end highlights none. *)
Theorem selection_screen_cursor (k0 k1 sel : Z) :
  0 <= sel ->
  exists lines, selection_screen k0 k1 sel = Some lines /\
    map row lines = [1; 2; 3; 4; 5] /\
    (sel < 5 -> exists e, nth_error (LANGUAGES_iter k0 k1) (Z.to_nat sel) = Some e /\
       filter yellow lines
       = [{| row := sel + 1; text := lit "> " ++ display (fst e) ++ [10%N]; yellow := true |}]) /\
    (5 <= sel -> filter yellow lines = []).
Proof.
  intros Hs. unfold selection_screen.
  destruct (selection_entries_spec sel (LANGUAGES_iter k0 k1) 0 ltac:(lia)
              ltac:(rewrite LANGUAGES_iter_length; lia)) as (lines & E & Hr & Hy).
  exists lines. split; [exact E|]. split; [rewrite Hr, LANGUAGES_iter_length; reflexivity|].
  replace (0 <=? sel) with true in Hy by (symmetry; apply Z.leb_le; lia).
  rewrite Z.sub_0_r in Hy.
  split.
  - intros Hlt. destruct (nth_error (LANGUAGES_iter k0 k1) (Z.to_nat sel)) as [e|] eqn:Ee.
    + exists e. split; [reflexivity|exact Hy].
    + apply nth_error_None in Ee. rewrite LANGUAGES_iter_length in Ee. lia.
  - intros Hge. rewrite Hy.
    replace (nth_error (LANGUAGES_iter k0 k1) (Z.to_nat sel)) with (@None (ProjectLanguage * CommandExists));
      [reflexivity|].
    symmetry. apply nth_error_None. rewrite LANGUAGES_iter_length. lia.
Qed.

Lemma selection_screen_cursor_witness :
  exists lines, selection_screen 0 0 7 = Some lines /\ map row lines = [1; 2; 3; 4; 5] /\
    (7 < 5 -> exists e, nth_error (LANGUAGES_iter 0 0) (Z.to_nat 7) = Some e /\
       filter yellow lines
       = [{| row := 7 + 1; text := lit "> " ++ display (fst e) ++ [10%N]; yellow := true |}]) /\
    (5 <= 7 -> filter yellow lines = []).
Proof. exact (selection_screen_cursor 0 0 7 ltac:(lia)). Defined.

(** [LANGUAGES.get(l)] returns the command of [l] in the literal table, whatever the hash keys. *)
Theorem LANGUAGES_get_literal (k0 k1 : Z) (l : ProjectLanguage) :
  LANGUAGES_get k0 k1 l = Some (lang_entry l).
Proof. apply LANGUAGES_get_spec. Qed.



(** A session that types a name, presses Enter, moves down [j] times and presses Enter reaches the dispatch of the [j]-th language with the typed name, in raw mode on the alternate screen, with nothing else done. *)
Theorem main_session oc k0 k1 (keys : list KeyEvent) (buf : rstring) (j : nat) e rest (s : St) :
  io_budget s = None -> name_edits keys [] = Some buf ->
  nth_error (LANGUAGES_iter k0 k1) j = Some e ->
  exists s2,
    main oc k0 k1 (map (fun k => Read (Key k)) keys ++ press Enter ::
                   repeat (press Down) j ++ press Enter :: rest) s
    = bind (dispatch k0 k1 buf (fst e)) (fun _ => teardown) s2 /\
    raw s2 = true /\ alt s2 = true /\ io_budget s2 = None /\
    fs s2 = fs s /\ cwd s2 = cwd s /\ installed s2 = installed s /\
    map act (trace s2) = map act (trace s) ++ [AEnterAlternateScreen; AEnableRawMode].
Proof. apply main_session_run. Qed.

Lemma main_session_witness :
  exists e s2, nth_error (LANGUAGES_iter 0 0) 1 = Some e /\
    main true 0 0 ([key_d; press Enter] ++ repeat (press Down) 1 ++ [press Enter]) demo_state
    = bind (dispatch 0 0 (lit "d") (fst e)) (fun _ => teardown) s2.
Proof.
  exists (Ocaml, Exists {| command := lit "dune"; args := [lit "init"; lit "project"];
                               automatic_new_folder := true |}).
  destruct (main_session true 0 0 [typed (N_of_ascii "d"%char) NONE] (lit "d") 1
              (Ocaml, Exists {| command := lit "dune"; args := [lit "init"; lit "project"];
                                    automatic_new_folder := true |})
              [] demo_state eq_refl eq_refl ltac:(vm_compute; reflexivity)) as (s2 & Hm & _).
  exists s2. split; [vm_compute; reflexivity|exact Hm].
Defined.
